(** * QuantMentor: the backtest and Sharpe pipelines

    A shallow embedding of the numerical core of the scripts
    [backtest_scaffold.py], [backtest_scaffold_plus.py] (both revisions),
    [sharpe_demo.py] and [sharpe_demo_plus.py]: return calculation, the toy signal, the lagged
    position, the per-flip cost, the summary metrics and the rolling Sharpe
    ratio.

    Numbers.  A float64 is modelled as an exact real number extended with
    [NaN], [+inf] and [-inf].  Rounding, overflow and the sign of zero are
    outside the model: arithmetic on finite values is exact, and the only
    ways to leave the finite values are the ones the code has (division by
    zero, the logarithm of a non-positive number, and operations on values
    that are already infinite or NaN).  In particular the deviation of
    identical values from their mean is exactly 0 here, while in binary64
    it is 0 only when the mean is computed exactly; module [Binary64]
    below evaluates that path with the kernel's binary64 numbers.

    Series.  A pandas [Series] over the frame's row index is the list of its
    values in row order; the operations used by the scripts ([shift],
    [diff], [pct_change], [fillna], [dropna], [cumprod], [cummax],
    [rolling], [mean], [std], ...) are list functions with pandas' treatment
    of missing values.  [pct_change] is taken without forward filling. *)

From Stdlib Require Import Floats.
From Stdlib Require Import String Reals Lra Lia ZArith Bool Arith List.
Import ListNotations.

Local Open Scope R_scope.

(* ================================================================== *)
(** ** Floating-point values *)

Inductive float : Type :=
| NaN
| PInf
| NInf
| Fin (x : R).

Definition Rltb (x y : R) : bool := if Rlt_dec x y then true else false.
Definition Reqb (x y : R) : bool := if Req_dec_T x y then true else false.

Definition isnan (a : float) : bool :=
  match a with NaN => true | _ => false end.

Definition isfinite (a : float) : bool :=
  match a with Fin _ => true | _ => false end.

Definition fneg (a : float) : float :=
  match a with
  | NaN => NaN
  | PInf => NInf
  | NInf => PInf
  | Fin x => Fin (- x)
  end.

Definition fabs (a : float) : float :=
  match a with
  | NaN => NaN
  | PInf | NInf => PInf
  | Fin x => Fin (Rabs x)
  end.

Definition fadd (a b : float) : float :=
  match a, b with
  | NaN, _ => NaN
  | _, NaN => NaN
  | PInf, NInf => NaN
  | NInf, PInf => NaN
  | PInf, _ => PInf
  | _, PInf => PInf
  | NInf, _ => NInf
  | _, NInf => NInf
  | Fin x, Fin y => Fin (x + y)
  end.

Definition fsub (a b : float) : float := fadd a (fneg b).

(** An infinity [i] times the finite [x]: the sign rule, and [inf * 0 = NaN]. *)
Definition inf_times (i : float) (x : R) : float :=
  if Rltb 0 x then i else if Rltb x 0 then fneg i else NaN.

Definition fmul (a b : float) : float :=
  match a, b with
  | NaN, _ => NaN
  | _, NaN => NaN
  | Fin x, Fin y => Fin (x * y)
  | Fin x, i => inf_times i x
  | i, Fin x => inf_times i x
  | PInf, PInf => PInf
  | NInf, NInf => PInf
  | PInf, NInf => NInf
  | NInf, PInf => NInf
  end.

(** Division as numpy does it on arrays: [x / 0] is an infinity of the sign
    of [x], [0 / 0] is NaN, and nothing is raised. *)
Definition fdiv (a b : float) : float :=
  match a, b with
  | NaN, _ => NaN
  | _, NaN => NaN
  | Fin x, Fin y =>
      if Reqb y 0 then
        if Rltb 0 x then PInf else if Rltb x 0 then NInf else NaN
      else Fin (x / y)
  | Fin _, _ => Fin 0
  | i, Fin y => if Rltb y 0 then fneg i else i
  | _, _ => NaN
  end.

(** [a < b]; false as soon as one side is NaN. *)
Definition flt (a b : float) : bool :=
  match a, b with
  | NaN, _ => false
  | _, NaN => false
  | _, NInf => false
  | NInf, _ => true
  | PInf, _ => false
  | _, PInf => true
  | Fin x, Fin y => Rltb x y
  end.

Definition fgt (a b : float) : bool := flt b a.

(** [a == b]; false as soon as one side is NaN. *)
Definition feqb (a b : float) : bool :=
  match a, b with
  | PInf, PInf => true
  | NInf, NInf => true
  | Fin x, Fin y => Reqb x y
  | _, _ => false
  end.

(** [np.maximum] and [np.minimum]: NaN propagates. *)
Definition fmax (a b : float) : float :=
  match a, b with
  | NaN, _ => NaN
  | _, NaN => NaN
  | _, _ => if flt a b then b else a
  end.

Definition fmin (a b : float) : float :=
  match a, b with
  | NaN, _ => NaN
  | _, NaN => NaN
  | _, _ => if flt b a then b else a
  end.

(** [np.sqrt]: NaN below zero. *)
Definition fsqrt (a : float) : float :=
  match a with
  | NaN => NaN
  | PInf => PInf
  | NInf => NaN
  | Fin x => if Rltb x 0 then NaN else Fin (sqrt x)
  end.

(** [np.log]: [-inf] at zero and NaN below it (a warning, no exception). *)
Definition flog (a : float) : float :=
  match a with
  | NaN => NaN
  | PInf => PInf
  | NInf => NaN
  | Fin x => if Rltb 0 x then Fin (ln x) else if Reqb x 0 then NInf else NaN
  end.

Definition of_Z (z : Z) : float := Fin (IZR z).
Definition of_nat (n : nat) : float := Fin (INR n).
Definition of_bool (b : bool) : Z := if b then 1%Z else 0%Z.

(** Truncation toward zero, the rounding of Python's [int(x)]. *)
Definition Rtrunc (x : R) : Z := if Rle_dec 0 x then Zfloor x else Zceil x.

(* ================================================================== *)
(** ** Exceptions *)

Inductive exn : Type :=
| ValueError
| KeyError
| OverflowError
| TypeError.

Inductive result (A : Type) : Type :=
| Ok (a : A)
| Raise (e : exn).

Arguments Ok {A} a.
Arguments Raise {A} e.

Definition bind {A B : Type} (m : result A) (k : A -> result B) : result B :=
  match m with
  | Ok a => k a
  | Raise e => Raise e
  end.

Notation "x <- m ;; k" := (bind m (fun x => k))
  (at level 61, m at next level, right associativity).
Notation "' p <- m ;; k" := (bind m (fun p => k))
  (at level 61, p pattern, m at next level, right associativity).

(** Python's [int(x)] on a float: [ValueError] on NaN, [OverflowError] on an
    infinity. *)
Definition int_of_float (a : float) : result Z :=
  match a with
  | NaN => Raise ValueError
  | PInf | NInf => Raise OverflowError
  | Fin x => Ok (Rtrunc x)
  end.

(* ================================================================== *)
(** ** pandas Series *)

Definition Series : Type := list float.

(** Element-wise binary operation of two series over the same index. *)
Fixpoint zip_with {A B C : Type} (f : A -> B -> C) (xs : list A) (ys : list B)
  : list C :=
  match xs, ys with
  | x :: xs', y :: ys' => f x y :: zip_with f xs' ys'
  | _, _ => []
  end.

(** [lag prev xs]: every value replaced by its predecessor, [prev] first. *)
Fixpoint lag (prev : float) (xs : Series) : Series :=
  match xs with
  | [] => []
  | x :: xs' => prev :: lag x xs'
  end.

(** [s.shift(1)]: the first entry has no predecessor and is NaN. *)
Definition shift1 (xs : Series) : Series := lag NaN xs.

(** [s.diff()] is [s - s.shift(1)]. *)
Definition diff (xs : Series) : Series := zip_with fsub xs (shift1 xs).

(** [s.pct_change()] is [s / s.shift(1) - 1]. *)
Definition pct_change (xs : Series) : Series :=
  map (fun q => fsub q (Fin 1)) (zip_with fdiv xs (shift1 xs)).

Definition fillna (v : float) (xs : Series) : Series :=
  map (fun x => if isnan x then v else x) xs.

Definition dropna (xs : Series) : Series :=
  filter (fun x => negb (isnan x)) xs.

Definition fsum (xs : Series) : float := fold_right fadd (Fin 0) xs.

(** [s.sum()], which skips NaN. *)
Definition ssum (xs : Series) : float := fsum (dropna xs).

(** [s.mean()]: the sum of the values that are not NaN over their number,
    NaN when there is none. *)
Definition mean (xs : Series) : float :=
  let ys := dropna xs in
  if (length ys =? 0)%nat then NaN
  else fdiv (fsum ys) (of_nat (length ys)).

(** [s.var(ddof=1)]: NaN for fewer than two values, else the sum of the
    squared deviations from the mean over [n - 1]. *)
Definition var (xs : Series) : float :=
  let ys := dropna xs in
  let n := length ys in
  if (n <=? 1)%nat then NaN
  else
    let avg := fdiv (fsum ys) (of_nat n) in
    fdiv (fsum (map (fun x => fmul (fsub avg x) (fsub avg x)) ys))
         (of_nat (n - 1)).

(** [s.std(ddof=1)]. *)
Definition std (xs : Series) : float := fsqrt (var xs).

(** [s.cumprod()]: a NaN entry stays NaN and is skipped by the running
    product. *)
Fixpoint cumprod_from (acc : float) (xs : Series) : Series :=
  match xs with
  | [] => []
  | x :: xs' =>
      if isnan x then NaN :: cumprod_from acc xs'
      else fmul acc x :: cumprod_from (fmul acc x) xs'
  end.

Definition cumprod (xs : Series) : Series := cumprod_from (Fin 1) xs.

(** [s.cummax()]: a NaN entry stays NaN and is skipped by the running
    maximum. *)
Fixpoint cummax_from (acc : float) (xs : Series) : Series :=
  match xs with
  | [] => []
  | x :: xs' =>
      if isnan x then NaN :: cummax_from acc xs'
      else fmax acc x :: cummax_from (fmax acc x) xs'
  end.

Definition cummax (xs : Series) : Series := cummax_from NInf xs.

(** [s.min()], which skips NaN; NaN when nothing is left. *)
Definition smin (xs : Series) : float :=
  match dropna xs with
  | [] => NaN
  | y :: ys => fold_left fmin ys y
  end.

(** [s.iloc[-1]] of a series known to be non-empty. *)
Definition iloc_last (xs : Series) : float := last xs NaN.

(** [s.rolling(w, min_periods=w)] followed by the statistic [f]: at row [t]
    the window is the [w] values ending at [t]; the result is NaN while the
    window is incomplete or holds a value that is NaN or infinite.  pandas
    updates the window statistics incrementally; in exact arithmetic the
    result is the statistic of the window, and rounding is outside the
    model. *)
Definition window_at (w t : nat) (xs : Series) : Series :=
  firstn w (skipn (t + 1 - w) xs).

Definition rolling (w : nat) (f : Series -> float) (xs : Series) : Series :=
  map (fun t =>
         if (w <=? t + 1)%nat then
           let win := window_at w t xs in
           if forallb isfinite win then f win else NaN
         else NaN)
      (seq 0 (length xs)).

(* ================================================================== *)
(** ** pandas DataFrame *)

(** A column is an int64 or a float64 series. *)
Inductive Column : Type :=
| IntCol (l : list Z)
| FloatCol (l : Series).

(** [col.astype(float)]; arithmetic on an int64 column goes through it. *)
Definition astype_float (c : Column) : Series :=
  match c with
  | IntCol l => map of_Z l
  | FloatCol l => l
  end.

(** A frame as read from the CSV and sorted by date: its named numeric
    columns, rows in date order.  The frames covered are those whose
    columns other than [date] are numeric (int64 or float64); a column of
    text, on which [astype(float)] or the arithmetic would raise, is
    outside the type.  The [date] column, which every frame has, holds
    timestamps; it is the row order and is not among the named columns. *)
Definition DataFrame : Type := list (string * Column).

Fixpoint get_col (name : string) (df : DataFrame) : option Column :=
  match df with
  | [] => None
  | (k, c) :: df' => if String.eqb k name then Some c else get_col name df'
  end.

Definition has_col (name : string) (df : DataFrame) : bool :=
  match get_col name df with Some _ => true | None => false end.

(** [df[name]]. *)
Definition getitem (df : DataFrame) (name : string) : result Column :=
  match get_col name df with
  | Some c => Ok c
  | None => Raise KeyError
  end.

(** [df[name] = c]. *)
Fixpoint set_col (name : string) (c : Column) (df : DataFrame) : DataFrame :=
  match df with
  | [] => [(name, c)]
  | (k, c') :: df' =>
      if String.eqb k name then (name, c) :: df'
      else (k, c') :: set_col name c df'
  end.

Definition TRADING_DAYS : R := 252.

Local Open Scope string_scope.
Local Open Scope list_scope.

(* ================================================================== *)
(** ** backtest_scaffold_plus.py

    The functions below are common to the two revisions of the script (the
    file of that name, and the later revision kept after
    backtest_scaffold.py); [annualized_sortino], [compute_summary_metrics]
    and [main] are those of the later revision. *)

Module BacktestScaffoldPlus.

Definition compute_returns_from_price (series : Column) (use_log : bool)
  : Series :=
  let series := astype_float series in
  if use_log then diff (map flog series)
  else pct_change series.

(** The column assigned to [out['signal']]: long today if yesterday's
    close-to-close return is below zero. *)
Definition toy_signal (close : Column) : list Z :=
  let y_ret := shift1 (pct_change (astype_float close)) in
  map (fun y => of_bool (flt y (Fin 0))) y_ret.

Definition generate_signals (df : DataFrame) : result DataFrame :=
  close <- getitem df "close" ;;
  Ok (set_col "signal" (IntCol (toy_signal close)) df).

(** The local [pos] of [apply_strategy]. *)
Definition pos (signal : Column) : Series :=
  fillna (Fin 0) (shift1 (astype_float signal)).

(** The local [flips] of [apply_strategy]. *)
Definition flips (signal : Column) : Series :=
  fillna (Fin 0) (map fabs (diff (astype_float signal))).

(** The column [out['ret']]. *)
Definition ret_col (price : Column) (use_log : bool) : Series :=
  fillna (Fin 0) (compute_returns_from_price price use_log).

(** The series [flips * fee] subtracted from the strategy return. *)
Definition cost (signal : Column) (fee_bps : float) : Series :=
  let fee := fdiv fee_bps (Fin 10000) in
  map (fun f => fmul f fee) (flips signal).

(** The final column [out['strategy_ret']]. *)
Definition strategy_ret (price signal : Column) (fee_bps : float)
    (use_log : bool) : Series :=
  zip_with fsub
    (zip_with fmul (pos signal) (ret_col price use_log))
    (cost signal fee_bps).

Definition apply_strategy (df : DataFrame) (price_col : string)
    (fee_bps : float) (use_log : bool) : result (DataFrame * Z) :=
  price <- getitem df price_col ;;
  let out := set_col "ret" (FloatCol (ret_col price use_log)) df in
  signal <- getitem out "signal" ;;
  trade_count <- int_of_float (ssum (flips signal)) ;;
  Ok (set_col "strategy_ret"
        (FloatCol (strategy_ret price signal fee_bps use_log)) out,
      trade_count).

Definition annualize_vol (std_daily : float) : float :=
  fmul std_daily (Fin (sqrt TRADING_DAYS)).

Definition annualized_sharpe (mean_daily std_daily : float) : float :=
  if feqb std_daily (Fin 0) then NaN
  else fmul (fdiv mean_daily std_daily) (Fin (sqrt TRADING_DAYS)).

Definition annualized_sortino (mean_daily downside_std_daily : float)
  : float :=
  if feqb downside_std_daily (Fin 0) then NaN
  else fmul (fdiv mean_daily downside_std_daily) (Fin (sqrt TRADING_DAYS)).

(** The equity curve [(1.0 + ret).cumprod()]. *)
Definition equity (ret : Series) : Series :=
  cumprod (map (fun r => fadd (Fin 1) r) ret).

Definition max_drawdown_from_returns (ret : Series) : float :=
  let eq := equity (fillna (Fin 0) ret) in
  let peak := cummax eq in
  let dd := map (fun q => fsub q (Fin 1)) (zip_with fdiv eq peak) in
  match dd with
  | [] => NaN
  | _ => smin dd
  end.

Definition rolling_sharpe_annualized (excess : Series) (window : nat)
  : Series :=
  let m := rolling window mean excess in
  let s := rolling window std excess in
  let rs := zip_with fdiv m s in
  map (fun q => fmul q (Fin (sqrt TRADING_DAYS))) rs.

Record Metrics : Type := mkMetrics {
  n : nat;
  mean_daily_excess : float;
  std_daily_excess : float;
  downside_std_daily : float;
  vol_annualized : float;
  sharpe_annualized : float;
  sortino_annualized : float;
  max_drawdown : float;
  hit_rate : float;
  cumulative_return : float
}.

Definition compute_summary_metrics (excess : Series) : Metrics :=
  let xs := dropna excess in
  let n := length xs in
  let mean_d := mean xs in
  let std_d := std xs in
  let downside := filter (fun x => flt x (Fin 0)) xs in
  let down_std_d :=
    if (1 <? length downside)%nat then std downside else NaN in
  let vol_ann := if negb (isnan std_d) then annualize_vol std_d else NaN in
  let sharpe_ann :=
    if negb (isnan std_d) then annualized_sharpe mean_d std_d else NaN in
  let sortino_ann :=
    if negb (isnan down_std_d) then annualized_sortino mean_d down_std_d
    else NaN in
  let mdd := max_drawdown_from_returns xs in
  let cum_ret :=
    if (n =? 0)%nat then NaN
    else fsub (iloc_last (equity xs)) (Fin 1) in
  let hit_rate :=
    if (n =? 0)%nat then NaN
    else fdiv (of_nat (length (filter (fun x => fgt x (Fin 0)) xs)))
              (of_nat n) in
  mkMetrics n mean_d std_d down_std_d vol_ann sharpe_ann sortino_ann mdd
            hit_rate cum_ret.

Inductive ExecPrice : Type := ExecOpen | ExecClose.

Definition exec_name (e : ExecPrice) : string :=
  match e with ExecOpen => "open" | ExecClose => "close" end.

(** The parsed command line (the CSV path and the tearsheet path are
    input and output and are left out). *)
Record Args : Type := mkArgs {
  fee_bps : float;
  use_log_returns : bool;
  exec_price : ExecPrice;
  window : Z;
  riskfree_col : option string
}.

(** What [main] prints; [rows] is [len(df)], the number of rows. *)
Record Report : Type := mkReport {
  rows : nat;
  trade_count : Z;
  metrics : Metrics;
  roll_sharpe : Series;
  last_roll : float
}.

(** [main] from the frame on: the column checks, the signal, the strategy
    returns, the excess returns, the summary metrics and the rolling
    Sharpe ratio.  Naming [date] as the risk-free column passes the column
    check (the frame has it) and fails in [astype(float)] with [TypeError],
    the column being timestamps. *)
Definition main (args : Args) (df : DataFrame) : result Report :=
  if negb (has_col "close" df) then Raise ValueError
  else if match exec_price args with
          | ExecOpen => negb (has_col "open" df)
          | ExecClose => false
          end then Raise ValueError
  else
    df <- generate_signals df ;;
    let price_col := exec_name (exec_price args) in
    ' (df, trade_count) <-
        apply_strategy df price_col (fee_bps args) (use_log_returns args) ;;
    strategy <- getitem df "strategy_ret" ;;
    let strategy := astype_float strategy in
    excess <-
      match riskfree_col args with
      | Some name =>
          if String.eqb name "" then Ok strategy
          else if String.eqb name "date" then Raise TypeError
          else if negb (has_col name df) then Raise ValueError
          else
            rf <- getitem df name ;;
            Ok (zip_with fsub strategy
                  (fillna (Fin 0) (astype_float rf)))
      | None => Ok strategy
      end ;;
    let metrics := compute_summary_metrics excess in
    let window := Z.to_nat (Z.max 5 (window args)) in
    let roll_sharpe := rolling_sharpe_annualized excess window in
    let last_roll :=
      match dropna roll_sharpe with
      | [] => NaN
      | r => iloc_last r
      end in
    Ok (mkReport (length strategy) trade_count metrics roll_sharpe last_roll).

End BacktestScaffoldPlus.

(* ================================================================== *)
(** ** backtest_scaffold.py *)

Module BacktestScaffold.

Definition generate_signals (df : DataFrame) : result DataFrame :=
  close <- getitem df "close" ;;
  let y_ret := shift1 (pct_change (astype_float close)) in
  Ok (set_col "signal"
        (IntCol (map (fun y => of_bool (flt y (Fin 0))) y_ret)) df).

Definition apply_strategy (df : DataFrame) (fee_bps : float)
  : result DataFrame :=
  close <- getitem df "close" ;;
  let ret := fillna (Fin 0) (pct_change (astype_float close)) in
  let df := set_col "ret" (FloatCol ret) df in
  signal <- getitem df "signal" ;;
  let signal := astype_float signal in
  let strategy_ret := zip_with fmul (fillna (Fin 0) (shift1 signal)) ret in
  let df := set_col "strategy_ret" (FloatCol strategy_ret) df in
  let trades := fillna (Fin 0) (map fabs (diff signal)) in
  let fee := fdiv fee_bps (Fin 10000) in
  Ok (set_col "strategy_ret"
        (FloatCol (zip_with fsub strategy_ret
                     (map (fun f => fmul f fee) trades))) df).

End BacktestScaffold.

(* ================================================================== *)
(** ** sharpe_demo_plus.py *)

Module SharpeDemoPlus.

Record Stats : Type := mkStats {
  n : nat;
  mean_excess : float;
  std_excess : float;
  sharpe_daily : float;
  sharpe_annual : float;
  t_stat : float
}.

Definition compute_basic_stats (excess : Series) : Stats :=
  let xs := dropna excess in
  let n := length xs in
  if (n <? 2)%nat then mkStats n NaN NaN NaN NaN NaN
  else
    let mean_excess := mean xs in
    let std_excess := std xs in
    let sharpe_daily :=
      if negb (feqb std_excess (Fin 0)) then fdiv mean_excess std_excess
      else NaN in
    let sharpe_annual :=
      if negb (isnan sharpe_daily)
      then fmul sharpe_daily (Fin (sqrt TRADING_DAYS))
      else NaN in
    let se :=
      if (1 <? n)%nat then fdiv std_excess (Fin (sqrt (INR n))) else NaN in
    let t_stat :=
      if negb (feqb se (Fin 0)) && negb (isnan se)
      then fdiv mean_excess se
      else NaN in
    mkStats n mean_excess std_excess sharpe_daily sharpe_annual t_stat.

Definition rolling_sharpe (excess : Series) (window : nat) : Series :=
  let roll_mean := rolling window mean excess in
  let roll_std := rolling window std excess in
  let rs := zip_with fdiv roll_mean roll_std in
  map (fun q => fmul q (Fin (sqrt TRADING_DAYS))) rs.

(** [load_csv] from the frame on: the check of the two columns (reading and
    sorting by date give the frame in row order). *)
Definition load_csv (df : DataFrame) : result DataFrame :=
  if negb (has_col "strategy_return" df && has_col "risk_free_daily" df)
  then Raise ValueError
  else Ok df.

(** What [main] prints: the basic statistics, the rolling series and the
    number of its defined points ([available]).  The chart is output. *)
Record Output : Type := mkOutput {
  stats : Stats;
  roll : Series;
  available : nat
}.

Definition main (window : Z) (df : DataFrame) : result Output :=
  df <- load_csv df ;;
  strategy_return <- getitem df "strategy_return" ;;
  risk_free_daily <- getitem df "risk_free_daily" ;;
  let excess :=
    zip_with fsub (astype_float strategy_return)
                  (astype_float risk_free_daily) in
  let stats := compute_basic_stats excess in
  let window := Z.to_nat (Z.max 5 window) in
  let roll := rolling_sharpe excess window in
  let available := length (dropna roll) in
  Ok (mkOutput stats roll available).

End SharpeDemoPlus.

(* ================================================================== *)
(** ** sharpe_demo.py *)

Module SharpeDemo.

Record Output : Type := mkOutput {
  mean_excess : float;
  std_excess : float;
  sharpe_daily : float;
  sharpe_annual : float
}.

(** [main] from the frame on. *)
Definition main (df : DataFrame) : result Output :=
  if negb (has_col "strategy_return" df && has_col "risk_free_daily" df)
  then Raise ValueError
  else
    strategy_return <- getitem df "strategy_return" ;;
    risk_free_daily <- getitem df "risk_free_daily" ;;
    let excess :=
      zip_with fsub (astype_float strategy_return)
                    (astype_float risk_free_daily) in
    let mean_excess := mean excess in
    let std_excess := std excess in
    let sharpe_daily :=
      if negb (feqb std_excess (Fin 0)) then fdiv mean_excess std_excess
      else NaN in
    let sharpe_annual :=
      if negb (isnan sharpe_daily) then fmul sharpe_daily (Fin (sqrt 252))
      else NaN in
    Ok (mkOutput mean_excess std_excess sharpe_daily sharpe_annual).

End SharpeDemo.

(* ================================================================== *)
(** ** backtest_scaffold_plus.py, first revision

    The file of that name: its functions are those of [BacktestScaffoldPlus]
    above; its [main] computes the summary in place, without a risk-free
    column, Sortino ratio or hit rate. *)

Module BacktestScaffoldPlusFirst.

Record Args : Type := mkArgs {
  fee_bps : float;
  use_log_returns : bool;
  exec_price : BacktestScaffoldPlus.ExecPrice;
  window : Z
}.

Record Report : Type := mkReport {
  rows : nat;
  trade_count : Z;
  mean_d : float;
  std_d : float;
  vol_ann : float;
  sharpe_ann : float;
  mdd : float;
  cum_ret : float;
  roll_sharpe : Series;
  last_roll : float
}.

Definition main (args : Args) (df : DataFrame) : result Report :=
  if negb (has_col "close" df) then Raise ValueError
  else if match exec_price args with
          | BacktestScaffoldPlus.ExecOpen => negb (has_col "open" df)
          | BacktestScaffoldPlus.ExecClose => false
          end then Raise ValueError
  else
    df <- BacktestScaffoldPlus.generate_signals df ;;
    let price_col := BacktestScaffoldPlus.exec_name (exec_price args) in
    ' (df, trade_count) <-
        BacktestScaffoldPlus.apply_strategy df price_col (fee_bps args)
          (use_log_returns args) ;;
    excess <- getitem df "strategy_ret" ;;
    let excess := astype_float excess in
    let mean_d := mean excess in
    let std_d := std excess in
    let vol_ann := BacktestScaffoldPlus.annualize_vol std_d in
    let sharpe_ann := BacktestScaffoldPlus.annualized_sharpe mean_d std_d in
    let mdd := BacktestScaffoldPlus.max_drawdown_from_returns excess in
    let window := Z.to_nat (Z.max 5 (window args)) in
    let roll_sharpe :=
      BacktestScaffoldPlus.rolling_sharpe_annualized excess window in
    let last_roll :=
      match dropna roll_sharpe with
      | [] => NaN
      | r => iloc_last r
      end in
    let cum_ret :=
      match excess with
      | [] => NaN
      | _ => fsub (iloc_last (BacktestScaffoldPlus.equity excess)) (Fin 1)
      end in
    Ok (mkReport (length excess) trade_count mean_d std_d vol_ann sharpe_ann
          mdd cum_ret roll_sharpe last_roll).

End BacktestScaffoldPlusFirst.

(* ================================================================== *)
(** ** The Sharpe ratio of the summary in binary64

    The same computation as [mean], [std], [annualized_sharpe] and the
    [sharpe_annualized] entry of [compute_summary_metrics] above, on a
    sample without NaN, carried out in IEEE binary64 arithmetic with the
    kernel's floating-point numbers: the sum from left to right, the mean
    as the sum over the count, the variance as the sum of the squared
    deviations from that mean over [n - 1].  It serves to evaluate the
    code where rounding decides the result. *)

Module Binary64.

Definition f64 : Set := PrimFloat.float.

Definition of_nat (k : nat) : f64 :=
  PrimFloat.of_uint63 (Uint63.of_Z (Z.of_nat k)).

Definition sum (xs : list f64) : f64 :=
  fold_left PrimFloat.add xs PrimFloat.zero.

Definition mean (xs : list f64) : f64 :=
  if (length xs =? 0)%nat then PrimFloat.nan
  else PrimFloat.div (sum xs) (of_nat (length xs)).

Definition var (xs : list f64) : f64 :=
  let k := length xs in
  if (k <=? 1)%nat then PrimFloat.nan
  else
    let avg := PrimFloat.div (sum xs) (of_nat k) in
    PrimFloat.div
      (sum (map (fun x => PrimFloat.mul (PrimFloat.sub avg x)
                                        (PrimFloat.sub avg x)) xs))
      (of_nat (k - 1)).

Definition std (xs : list f64) : f64 := PrimFloat.sqrt (var xs).

Definition annualized_sharpe (mean_daily std_daily : f64) : f64 :=
  if PrimFloat.eqb std_daily PrimFloat.zero then PrimFloat.nan
  else PrimFloat.mul (PrimFloat.div mean_daily std_daily)
                     (PrimFloat.sqrt (of_nat 252)).

Definition sharpe_annualized (xs : list f64) : f64 :=
  let mean_d := mean xs in
  let std_d := std xs in
  if negb (PrimFloat.is_nan std_d) then annualized_sharpe mean_d std_d
  else PrimFloat.nan.


End Binary64.

(* ================================================================== *)
(** ** The cost model in the specification's words

    [position_flips] is the flip series as the specification writes it,
    [flip[t] = |position[t] - position[t-1]|] with [flip[0] = 0], for
    comparison with the [flips] of [apply_strategy]. *)

Definition position_flips (position : Series) : Series :=
  fillna (Fin 0) (map fabs (diff position)).

(** The number of changes of an int64 signal from one row to the next,
    [sum over t >= 1 of |signal[t] - signal[t-1]|]. *)
Fixpoint changes_from (prev : Z) (signal : list Z) : Z :=
  match signal with
  | [] => 0%Z
  | x :: signal' => (Z.abs (x - prev) + changes_from x signal')%Z
  end.

Definition signal_changes (signal : list Z) : Z :=
  match signal with
  | [] => 0%Z
  | x :: signal' => changes_from x signal'
  end.

(** Two series agree on the rows [0..t]. *)
Definition agree_upto {A : Type} (t : nat) (xs ys : list A) : Prop :=
  forall u : nat, (u <= t)%nat -> nth_error xs u = nth_error ys u.

(* ================================================================== *)
(** ** Scenarios *)

(** The worked example: five closing prices, no fee, simple returns,
    execution at the close, the default window and no risk-free column. *)
Definition example_close : Column :=
  FloatCol [Fin 100; Fin 101; Fin 99; Fin 99; Fin 105].

Definition example_frame : DataFrame := [("close", example_close)].

Definition example_args : BacktestScaffoldPlus.Args :=
  BacktestScaffoldPlus.mkArgs (Fin 0) false BacktestScaffoldPlus.ExecClose
    60%Z None.

(** A frame whose closing price is [c] on each of ten rows. *)
Definition constant_frame (c : R) : DataFrame :=
  [("close", FloatCol (repeat (Fin c) 10))].

(** The worked example with its last two prices changed. *)
Definition example_close_changed : Column :=
  FloatCol [Fin 100; Fin 101; Fin 99; Fin 50; Fin 200].

(** A close column with a zero and a negative price, run with logarithmic
    returns. *)
Definition nonpositive_frame : DataFrame :=
  [("close", FloatCol [Fin 100; Fin 0; Fin (-5); Fin 50])].

Definition log_args : BacktestScaffoldPlus.Args :=
  BacktestScaffoldPlus.mkArgs (Fin 1) true BacktestScaffoldPlus.ExecClose
    60%Z None.

(** A finite and positive value, as a price is meant to be. *)
Definition positive (a : float) : Prop :=
  match a with Fin x => 0 < x | _ => False end.

Definition finite (a : float) : Prop :=
  match a with Fin _ => True | _ => False end.

(** A value that is a number or NaN, but not an infinity. *)
Definition finite_or_nan (a : float) : Prop :=
  match a with NaN | Fin _ => True | _ => False end.

(** [a <= b] on floats; it does not hold when a side is NaN. *)
Definition fle (a b : float) : Prop :=
  match a, b with
  | NaN, _ => False
  | _, NaN => False
  | NInf, _ => True
  | _, PInf => True
  | Fin x, Fin y => x <= y
  | _, _ => False
  end.

(** A curve that never falls from one row to the next. *)
Fixpoint nondecreasing_from (prev : float) (xs : Series) : Prop :=
  match xs with
  | [] => True
  | x :: xs' => fle prev x /\ nondecreasing_from x xs'
  end.

Definition nondecreasing (xs : Series) : Prop :=
  match xs with
  | [] => True
  | x :: xs' => nondecreasing_from x xs'
  end.

(** Sum, mean and Bessel-corrected variance of a sample of reals. *)
Definition Rsum (rs : list R) : R := fold_right Rplus 0 rs.

Definition Rmean (rs : list R) : R := Rsum rs / INR (length rs).

Definition Rvar (rs : list R) : R :=
  Rsum (map (fun x => (Rmean rs - x) * (Rmean rs - x)) rs)
  / INR (length rs - 1).

(** The equity curve over the reals: from the equity [a] reached so far,
    the equity after each of the returns [rs]. *)
Fixpoint Requity (a : R) (rs : list R) : list R :=
  match rs with
  | [] => []
  | r :: rs' => a * (1 + r) :: Requity (a * (1 + r)) rs'
  end.

(** The drawdown series over the reals: from the equity [a] and the peak
    [p] reached so far, the drawdowns of the returns [rs] that follow. *)
Fixpoint Rdrawdowns (a p : R) (rs : list R) : list R :=
  match rs with
  | [] => []
  | r :: rs' =>
      let e := a * (1 + r) in
      let p' := Rmax p e in
      (e / p' - 1) :: Rdrawdowns e p' rs'
  end.

(** The product of a list of reals. *)
Definition Rprod (rs : list R) : R := fold_right Rmult 1 rs.

(** [x] is [d] when rounded to four decimal places. *)
Definition rounds_to (x d : R) : Prop := Rabs (x - d) <= 5 / 100000.

(* ================================================================== *)
(** * Properties *)

Import BacktestScaffoldPlus.

(** ** Deciding comparisons of real numbers *)

Lemma Rltb_true (x y : R) : x < y -> Rltb x y = true.
Proof. intros H. unfold Rltb. destruct (Rlt_dec x y); [reflexivity | contradiction]. Qed.

Lemma Rltb_false (x y : R) : ~ x < y -> Rltb x y = false.
Proof. intros H. unfold Rltb. destruct (Rlt_dec x y); [contradiction | reflexivity]. Qed.

Lemma Reqb_true (x y : R) : x = y -> Reqb x y = true.
Proof. intros H. unfold Reqb. destruct (Req_dec_T x y); [reflexivity | contradiction]. Qed.

Lemma Reqb_false (x y : R) : x <> y -> Reqb x y = false.
Proof. intros H. unfold Reqb. destruct (Req_dec_T x y); [contradiction | reflexivity]. Qed.

(** Evaluation of a closed expression: list functions by computation, the
    comparisons of reals by [lra]. *)
Ltac rdecide :=
  match goal with
  | |- context [Rltb ?x ?y] =>
      first [ rewrite (Rltb_true x y) by lra | rewrite (Rltb_false x y) by lra ]
  | |- context [Reqb ?x ?y] =>
      first [ rewrite (Reqb_true x y) by lra | rewrite (Reqb_false x y) by lra ]
  | |- context [Rabs ?x] =>
      first [ rewrite (Rabs_pos_eq x) by lra | rewrite (Rabs_left x) by lra ]
  end.

Ltac feval := simpl; repeat (rdecide; simpl).

(** Equality of two lists of floats whose finite entries are equal reals. *)
Ltac fin_list :=
  repeat match goal with
         | |- _ :: _ = _ :: _ => f_equal
         | |- Fin _ = Fin _ => f_equal; lra
         | |- Some _ = Some _ => f_equal
         | |- Ok _ = Ok _ => f_equal
         end; try reflexivity.

Lemma Rtrunc_IZR (z : Z) : Rtrunc (IZR z) = z.
Proof.
  unfold Rtrunc. destruct (Rle_dec 0 (IZR z)).
  - apply ZfloorZ.
  - apply Zceil_eq. lra.
Qed.

(** ** Lists: lagging and element-wise operations *)

Lemma length_lag (p : float) (xs : Series) : length (lag p xs) = length xs.
Proof. revert p. induction xs as [|x xs IH]; intros p; simpl; [reflexivity | now rewrite IH]. Qed.

Lemma nth_error_lag (p : float) (xs : Series) (t : nat) :
  (t < length xs)%nat ->
  nth_error (lag p xs) t =
  Some (match t with O => p | S u => nth u xs NaN end).
Proof.
  revert p t. induction xs as [|x xs IH]; intros p t Ht; simpl in Ht; [lia|].
  destruct t as [|t]; simpl; [reflexivity|].
  rewrite IH by lia. destruct t; reflexivity.
Qed.

Lemma length_zip_with {A B C : Type} (f : A -> B -> C) xs ys :
  length (zip_with f xs ys) = Nat.min (length xs) (length ys).
Proof.
  revert ys. induction xs as [|x xs IH]; intros [|y ys]; simpl; auto.
Qed.

Lemma nth_error_zip_with {A B C : Type} (f : A -> B -> C) xs ys t :
  nth_error (zip_with f xs ys) t =
  match nth_error xs t, nth_error ys t with
  | Some x, Some y => Some (f x y)
  | _, _ => None
  end.
Proof.
  revert ys t. induction xs as [|x xs IH]; intros [|y ys] [|t]; simpl; auto;
    destruct (nth_error xs t); reflexivity.
Qed.

Lemma length_fillna (v : float) (xs : Series) : length (fillna v xs) = length xs.
Proof. apply length_map. Qed.

Lemma nth_error_fillna (v : float) (xs : Series) (t : nat) :
  nth_error (fillna v xs) t =
  option_map (fun x => if isnan x then v else x) (nth_error xs t).
Proof. unfold fillna. apply nth_error_map. Qed.

Lemma length_pos (signal : Column) :
  length (pos signal) = length (astype_float signal).
Proof. unfold pos, shift1. now rewrite length_fillna, length_lag. Qed.

Lemma nth_of_Z (s : list Z) (u : nat) :
  (u < length s)%nat -> nth u (map of_Z s) NaN = of_Z (nth u s 0%Z).
Proof.
  intros Hu. rewrite (nth_indep _ NaN (of_Z 0%Z)) by now rewrite length_map.
  apply map_nth.
Qed.

(** ** The lagged position *)

Lemma nth_error_pos (signal : list Z) (t : nat) :
  (t < length signal)%nat ->
  nth_error (pos (IntCol signal)) t =
  Some (match t with
        | O => Fin 0
        | S u => of_Z (nth u signal 0%Z)
        end).
Proof.
  intros Ht. unfold pos, shift1. rewrite nth_error_fillna.
  rewrite nth_error_lag by (simpl; now rewrite length_map).
  destruct t as [|u]; simpl; [reflexivity|].
  rewrite nth_of_Z by lia. reflexivity.
Qed.

(** C9.  For every int64 signal column, the position series has the rows
    of the signal, the position held over row 0 is flat ([0.0]), and the
    position held over any later row [t + 1] is the signal of row [t]. *)
Theorem position_is_lagged_signal (signal : list Z) :
  length (pos (IntCol signal)) = length signal
  /\ (signal <> [] -> nth_error (pos (IntCol signal)) 0 = Some (Fin 0))
  /\ (forall t : nat, (S t < length signal)%nat ->
        nth_error (pos (IntCol signal)) (S t)
        = option_map of_Z (nth_error signal t)).
Proof.
  split; [|split].
  - rewrite length_pos. simpl. apply length_map.
  - intros Hne. apply (nth_error_pos signal 0).
    destruct signal; [contradiction | simpl; lia].
  - intros t Ht. rewrite (nth_error_pos signal (S t) Ht).
    rewrite (nth_error_nth' signal 0%Z) by lia. reflexivity.
Qed.

Lemma position_is_lagged_signal_witness :
  nth_error (pos (IntCol [0; 1; 1; 0]%Z)) 0 = Some (Fin 0) /\
  nth_error (pos (IntCol [0; 1; 1; 0]%Z)) 2 = Some (of_Z 1).
Proof.
  destruct (position_is_lagged_signal [0; 1; 1; 0]%Z) as (_ & H0 & Ht).
  split.
  - apply H0. discriminate.
  - apply (Ht 1%nat). simpl. lia.
Defined.

(** ** The cost of a flip *)

Lemma nth_error_diff (xs : Series) (t : nat) :
  (t < length xs)%nat ->
  nth_error (diff xs) t =
  Some (fsub (nth t xs NaN)
             (match t with O => NaN | S u => nth u xs NaN end)).
Proof.
  intros Ht. unfold diff, shift1. rewrite nth_error_zip_with.
  rewrite nth_error_lag by assumption.
  rewrite (nth_error_nth' xs NaN) by assumption. reflexivity.
Qed.

Lemma fsub_nan_r (a : float) : fsub a NaN = NaN.
Proof. destruct a; reflexivity. Qed.

Lemma nth_error_position_flips (xs : Series) (t : nat) :
  (t < length xs)%nat ->
  nth_error (position_flips xs) t =
  Some (match t with
        | O => Fin 0
        | S u =>
            let d := fabs (fsub (nth t xs NaN) (nth u xs NaN)) in
            if isnan d then Fin 0 else d
        end).
Proof.
  intros Ht. unfold position_flips. rewrite nth_error_fillna, nth_error_map.
  rewrite nth_error_diff by assumption. simpl.
  destruct t as [|u]; [now rewrite fsub_nan_r | reflexivity].
Qed.

(** The flip charged on row [t] of an int64 signal. *)
Lemma nth_error_flips (signal : list Z) (t : nat) :
  (t < length signal)%nat ->
  nth_error (flips (IntCol signal)) t =
  Some (Fin (match t with
             | O => 0
             | S u => Rabs (IZR (nth t signal 0%Z) - IZR (nth u signal 0%Z))
             end)).
Proof.
  intros Ht. change (flips (IntCol signal)) with (position_flips (map of_Z signal)).
  rewrite nth_error_position_flips by now rewrite length_map.
  destruct t as [|u]; [reflexivity|].
  rewrite !nth_of_Z by lia. reflexivity.
Qed.

Lemma dropna_finite (xs : Series) :
  forallb isfinite xs = true -> dropna xs = xs.
Proof.
  induction xs as [|x xs IH]; simpl; [reflexivity|].
  intros H. apply andb_prop in H as [Hx Hxs].
  destruct x; try discriminate. simpl. now rewrite IH.
Qed.

Lemma flips_from_sum (prev : Z) (signal : list Z) :
  let fl := fillna (Fin 0)
              (map fabs (zip_with fsub (map of_Z signal)
                                   (lag (of_Z prev) (map of_Z signal)))) in
  forallb isfinite fl = true /\ fsum fl = Fin (IZR (changes_from prev signal)).
Proof.
  revert prev. induction signal as [|x signal IH]; intros prev; simpl.
  - split; reflexivity.
  - destruct (IH x) as [Hfin Hsum]. simpl in Hfin, Hsum.
    split; [exact Hfin|]. rewrite Hsum. simpl. f_equal.
    rewrite plus_IZR, abs_IZR, minus_IZR. reflexivity.
Qed.

Lemma trade_count_value (signal : list Z) :
  ssum (flips (IntCol signal)) = Fin (IZR (signal_changes signal)).
Proof.
  unfold ssum, flips, diff, shift1. destruct signal as [|x signal]; simpl.
  - reflexivity.
  - destruct (flips_from_sum x signal) as [Hfin Hsum]. simpl in Hfin, Hsum.
    unfold fillna in *. rewrite dropna_finite by exact Hfin.
    rewrite Hsum. simpl. f_equal. lra.
Qed.


(** ** Frames *)

Lemma get_col_set_col (name k : string) (c : Column) (df : DataFrame) :
  get_col name (set_col k c df) =
  if String.eqb k name then Some c else get_col name df.
Proof.
  induction df as [|[k' c'] df IH]; simpl.
  - destruct (String.eqb k name); reflexivity.
  - destruct (String.eqb k' k) eqn:Ek; simpl.
    + apply String.eqb_eq in Ek. subst k'.
      destruct (String.eqb k name); reflexivity.
    + rewrite IH. destruct (String.eqb k' name) eqn:En; [|reflexivity].
      apply String.eqb_eq in En. subst k'.
      rewrite String.eqb_sym, Ek. reflexivity.
Qed.

Lemma has_col_set_col (name k : string) (c : Column) (df : DataFrame) :
  has_col name df = true -> has_col name (set_col k c df) = true.
Proof.
  unfold has_col. rewrite get_col_set_col.
  destruct (String.eqb k name); [reflexivity | auto].
Qed.

Lemma getitem_some (df : DataFrame) (name : string) (c : Column) :
  get_col name df = Some c -> getitem df name = Ok c.
Proof. unfold getitem. now intros ->. Qed.

Lemma exec_name_fresh (e : ExecPrice) :
  String.eqb "signal" (exec_name e) = false /\
  String.eqb "ret" (exec_name e) = false /\
  String.eqb "strategy_ret" (exec_name e) = false.
Proof. destruct e; repeat split; reflexivity. Qed.

(** [generate_signals] followed by [apply_strategy] on a frame that has the
    close column and the execution price column: the columns they add, and
    the trade count. *)
Lemma apply_strategy_after_signals (df : DataFrame) (e : ExecPrice)
    (close price : Column) (fee_bps : float) (use_log : bool) :
  get_col "close" df = Some close ->
  get_col (exec_name e) df = Some price ->
  exists out : DataFrame,
    (df' <- generate_signals df ;;
     apply_strategy df' (exec_name e) fee_bps use_log)
    = Ok (out, signal_changes (toy_signal close)) /\
    get_col "signal" out = Some (IntCol (toy_signal close)) /\
    get_col "ret" out = Some (FloatCol (ret_col price use_log)) /\
    get_col "strategy_ret" out =
      Some (FloatCol (strategy_ret price (IntCol (toy_signal close))
                        fee_bps use_log)) /\
    (forall name, has_col name df = true -> has_col name out = true).
Proof.
  intros Hc Hp. destruct (exec_name_fresh e) as (F1 & F2 & F3).
  unfold generate_signals. rewrite (getitem_some _ _ _ Hc). simpl.
  unfold apply_strategy.
  set (df1 := set_col "signal" (IntCol (toy_signal close)) df).
  assert (Hp1 : get_col (exec_name e) df1 = Some price).
  { unfold df1. rewrite get_col_set_col, F1. exact Hp. }
  rewrite (getitem_some _ _ _ Hp1). simpl.
  set (df2 := set_col "ret" (FloatCol (ret_col price use_log)) df1).
  assert (Hs2 : get_col "signal" df2 = Some (IntCol (toy_signal close))).
  { unfold df2, df1. rewrite !get_col_set_col. reflexivity. }
  rewrite (getitem_some _ _ _ Hs2). simpl.
  rewrite trade_count_value. simpl. rewrite Rtrunc_IZR.
  eexists. split; [reflexivity|].
  repeat split.
  - rewrite get_col_set_col. simpl. exact Hs2.
  - unfold df2. rewrite !get_col_set_col. reflexivity.
  - rewrite get_col_set_col. reflexivity.
  - intros name Hn. unfold df2, df1. now repeat apply has_col_set_col.
Qed.

Lemma bind_assoc {A B C : Type} (m : result A) (f : A -> result B)
    (g : B -> result C) :
  bind m (fun x => bind (f x) g) = bind (bind m f) g.
Proof. destruct m; reflexivity. Qed.

Lemma has_col_of_get (name : string) (df : DataFrame) (c : Column) :
  get_col name df = Some c -> has_col name df = true.
Proof. unfold has_col. now intros ->. Qed.

Lemma nth_error_strategy_ret (price : Column) (signal : list Z)
    (fee_bps : float) (use_log : bool) (t : nat) (r : float) :
  nth_error (ret_col price use_log) t = Some r ->
  (t < length signal)%nat ->
  nth_error (strategy_ret price (IntCol signal) fee_bps use_log) t
  = Some (fsub
            (fmul (match t with
                   | O => Fin 0
                   | S u => of_Z (nth u signal 0%Z)
                   end) r)
            (fmul (Fin (match t with
                        | O => 0
                        | S u => Rabs (IZR (nth t signal 0%Z)
                                       - IZR (nth u signal 0%Z))
                        end))
                  (fdiv fee_bps (Fin 10000)))).
Proof.
  intros Hr Ht. unfold strategy_ret, cost.
  rewrite !nth_error_zip_with, nth_error_map.
  rewrite (nth_error_pos signal t Ht), Hr.
  rewrite (nth_error_flips signal t Ht). reflexivity.
Qed.

(** C1, as the code has it.  [apply_strategy] on a frame with a price
    column and an int64 signal column stores as [strategy_ret], on every
    row [t], the position times the return less one charge
    [|signal[t] - signal[t-1]| * fee_bps/10000] (no charge on row 0): the
    charge is the change of the *signal* on that row, subtracted once, and
    [trade_count] is the number of signal changes.  Since the position is
    the signal one row later, the charge of row [t] is the position change
    [|position[t+1] - position[t]|], taken one row before the position
    changes. *)
Theorem cost_is_charged_on_signal_changes (df : DataFrame)
    (price_col : string) (price : Column) (signal : list Z)
    (fee_bps : float) (use_log : bool) :
  get_col price_col df = Some price ->
  get_col "signal" df = Some (IntCol signal) ->
  let fee := fdiv fee_bps (Fin 10000) in
  let flip := fun t : nat =>
    match t with
    | O => 0
    | S u => Rabs (IZR (nth t signal 0%Z) - IZR (nth u signal 0%Z))
    end in
  let position := fun t : nat =>
    match t with
    | O => Fin 0
    | S u => of_Z (nth u signal 0%Z)
    end in
  exists (out : DataFrame) (strategy : Series),
    apply_strategy df price_col fee_bps use_log
    = Ok (out, signal_changes signal)
    /\ get_col "strategy_ret" out = Some (FloatCol strategy)
    /\ get_col "ret" out = Some (FloatCol (ret_col price use_log))
    /\ (forall (t : nat) (r : float),
          nth_error (ret_col price use_log) t = Some r ->
          (t < length signal)%nat ->
          nth_error strategy t
          = Some (fsub (fmul (position t) r) (fmul (Fin (flip t)) fee)))
    /\ (forall t : nat, (t < length signal)%nat ->
          nth_error (cost (IntCol signal) fee_bps) t
          = Some (fmul (Fin (flip t)) fee))
    /\ (forall t : nat, (1 <= t)%nat -> (S t < length signal)%nat ->
          nth_error (flips (IntCol signal)) t
          = nth_error (position_flips (pos (IntCol signal))) (S t)).
Proof.
  intros Hp Hs fee flip position.
  exists (set_col "strategy_ret"
            (FloatCol (strategy_ret price (IntCol signal) fee_bps use_log))
            (set_col "ret" (FloatCol (ret_col price use_log)) df)),
         (strategy_ret price (IntCol signal) fee_bps use_log).
  split; [|split; [|split; [|split; [|split]]]].
  - unfold apply_strategy. rewrite (getitem_some _ _ _ Hp). cbn [bind].
    assert (Hs' : get_col "signal"
                    (set_col "ret" (FloatCol (ret_col price use_log)) df)
                  = Some (IntCol signal))
      by (rewrite get_col_set_col; exact Hs).
    rewrite (getitem_some _ _ _ Hs'). cbn [bind].
    rewrite trade_count_value. cbn [int_of_float bind].
    now rewrite Rtrunc_IZR.
  - now rewrite get_col_set_col.
  - now rewrite !get_col_set_col.
  - intros t r Hr Ht. now apply nth_error_strategy_ret.
  - intros t Ht. unfold cost. rewrite nth_error_map.
    rewrite nth_error_flips by assumption. reflexivity.
  - intros t H1 Ht. rewrite nth_error_flips by lia.
    rewrite nth_error_position_flips
      by (rewrite length_pos; simpl; rewrite length_map; lia).
    destruct t as [|u]; [lia|].
    pose proof (nth_error_pos signal (S (S u)) Ht) as E2.
    pose proof (nth_error_pos signal (S u) ltac:(lia)) as E1.
    rewrite (nth_error_nth _ _ NaN E2), (nth_error_nth _ _ NaN E1).
    reflexivity.
Qed.

(** [main] without a risk-free column: the report is built from the strategy
    returns of the execution price column and the toy signal of the close. *)
Lemma main_without_riskfree (args : Args) (df : DataFrame)
    (close price : Column) :
  get_col "close" df = Some close ->
  get_col (exec_name (exec_price args)) df = Some price ->
  riskfree_col args = None ->
  let excess := strategy_ret price (IntCol (toy_signal close))
                  (fee_bps args) (use_log_returns args) in
  exists (roll : Series) (last : float),
    main args df =
    Ok (mkReport (length excess) (signal_changes (toy_signal close))
          (compute_summary_metrics excess) roll last).
Proof.
  intros Hc Hp Hrf excess. unfold main.
  rewrite (has_col_of_get _ _ _ Hc). simpl.
  assert (Hopen : match exec_price args with
                  | ExecOpen => negb (has_col "open" df)
                  | ExecClose => false
                  end = false).
  { destruct (exec_price args); [|reflexivity].
    simpl in Hp. now rewrite (has_col_of_get _ _ _ Hp). }
  rewrite Hopen.
  destruct (apply_strategy_after_signals df (exec_price args) close price
              (fee_bps args) (use_log_returns args) Hc Hp)
    as (out & Hrun & _ & _ & Hsr & _).
  rewrite bind_assoc, Hrun. simpl.
  rewrite (getitem_some _ _ _ Hsr). simpl. rewrite Hrf. simpl.
  eexists. eexists. reflexivity.
Qed.

(** [main] returns its report on a frame that has the columns it needs. *)
Lemma main_returns (args : Args) (df : DataFrame) :
  has_col "close" df = true ->
  has_col (exec_name (exec_price args)) df = true ->
  (forall name, riskfree_col args = Some name ->
                name = "" \/ (name <> "date" /\ has_col name df = true)) ->
  exists r : Report, main args df = Ok r.
Proof.
  intros Hc Hp Hrf. unfold main. rewrite Hc. simpl.
  assert (Hopen : match exec_price args with
                  | ExecOpen => negb (has_col "open" df)
                  | ExecClose => false
                  end = false).
  { destruct (exec_price args); [|reflexivity]. simpl in Hp. now rewrite Hp. }
  rewrite Hopen. unfold has_col in Hc, Hp.
  destruct (get_col "close" df) as [close|] eqn:Ec; [|discriminate].
  destruct (get_col (exec_name (exec_price args)) df) as [price|] eqn:Ep;
    [|discriminate].
  destruct (apply_strategy_after_signals df (exec_price args) close price
              (fee_bps args) (use_log_returns args) Ec Ep)
    as (out & Hrun & _ & _ & Hsr & Hkeep).
  rewrite bind_assoc, Hrun. simpl.
  rewrite (getitem_some _ _ _ Hsr). simpl.
  destruct (riskfree_col args) as [name|]; simpl; [|eexists; reflexivity].
  destruct (String.eqb name "") eqn:En; simpl; [eexists; reflexivity|].
  destruct (Hrf name eq_refl) as [H0|[Hdate Hhas]].
  { subst name. discriminate. }
  apply String.eqb_neq in Hdate. rewrite Hdate.
  rewrite (Hkeep name Hhas). simpl.
  unfold getitem. specialize (Hkeep name Hhas). unfold has_col in Hkeep.
  destruct (get_col name out); [|discriminate]. simpl. eexists; reflexivity.
Qed.

(** ** Logarithmic returns of non-positive prices *)

Lemma length_diff (xs : Series) : length (diff xs) = length xs.
Proof.
  unfold diff, shift1. rewrite length_zip_with, length_lag. apply Nat.min_id.
Qed.

Lemma length_pct_change (xs : Series) : length (pct_change xs) = length xs.
Proof.
  unfold pct_change, shift1.
  rewrite length_map, length_zip_with, length_lag. apply Nat.min_id.
Qed.

Lemma length_compute_returns (series : Column) (use_log : bool) :
  length (compute_returns_from_price series use_log)
  = length (astype_float series).
Proof.
  unfold compute_returns_from_price. destruct use_log.
  - now rewrite length_diff, length_map.
  - apply length_pct_change.
Qed.

Lemma fsub_NInf_l (y : float) : fsub NInf y = NaN \/ fsub NInf y = NInf.
Proof. destruct y; simpl; auto. Qed.

(** The logarithmic return of a row whose price is zero or negative. *)
Lemma log_return_of_nonpositive_price (price : Column) (t : nat) (x : R) :
  nth_error (astype_float price) t = Some (Fin x) ->
  x <= 0 ->
  nth_error (compute_returns_from_price price true) t = Some NaN
  \/ nth_error (compute_returns_from_price price true) t = Some NInf.
Proof.
  intros Ht Hx. unfold compute_returns_from_price.
  assert (Hlen : (t < length (map flog (astype_float price)))%nat).
  { rewrite length_map. apply nth_error_Some. congruence. }
  rewrite nth_error_diff by exact Hlen.
  assert (Hy : nth t (map flog (astype_float price)) NaN = flog (Fin x)).
  { apply nth_error_nth. now rewrite nth_error_map, Ht. }
  rewrite Hy. cbn [flog]. rewrite Rltb_false by lra.
  destruct (Req_dec_T x 0) as [E|E].
  - rewrite Reqb_true by exact E.
    match goal with |- context [fsub NInf ?y] =>
      destruct (fsub_NInf_l y) as [-> | ->] end; auto.
  - rewrite Reqb_false by exact E. left. reflexivity.
Qed.

(** C3, as the code has it.  With logarithmic returns a price that is zero
    or negative raises no error.  The return calculation yields a series
    with one entry per row, in which the return of a row with such a price
    is NaN or [-inf]; [out['ret']] holds [0.0] or [-inf] there; and on a
    frame that has the close and the execution price column, run without
    a risk-free column, [main] returns its report, with the summary
    metrics computed from the strategy returns of these returns. *)
Theorem log_returns_raise_nothing (args : Args) (df : DataFrame)
    (close price : Column) :
  use_log_returns args = true ->
  riskfree_col args = None ->
  get_col "close" df = Some close ->
  get_col (exec_name (exec_price args)) df = Some price ->
  let excess := strategy_ret price (IntCol (toy_signal close))
                  (fee_bps args) true in
  (exists (roll : Series) (last : float),
     main args df
     = Ok (mkReport (length excess) (signal_changes (toy_signal close))
             (compute_summary_metrics excess) roll last))
  /\ length (compute_returns_from_price price true)
     = length (astype_float price)
  /\ (forall (t : nat) (x : R),
        nth_error (astype_float price) t = Some (Fin x) -> x <= 0 ->
        (nth_error (compute_returns_from_price price true) t = Some NaN
         \/ nth_error (compute_returns_from_price price true) t = Some NInf)
        /\ (nth_error (ret_col price true) t = Some (Fin 0)
            \/ nth_error (ret_col price true) t = Some NInf)).
Proof.
  intros Hlog Hrf Hc Hp excess. split; [|split].
  - destruct (main_without_riskfree args df close price Hc Hp Hrf)
      as (roll & last & Hmain).
    rewrite Hlog in Hmain. exists roll, last. exact Hmain.
  - apply length_compute_returns.
  - intros t x Ht Hx.
    pose proof (log_return_of_nonpositive_price price t x Ht Hx) as H.
    split; [exact H|]. unfold ret_col. rewrite nth_error_fillna.
    destruct H as [-> | ->]; simpl; auto.
Qed.

Lemma log_returns_raise_nothing_witness :
  (exists (roll : Series) (last : float),
     main log_args nonpositive_frame
     = Ok (mkReport
             (length (strategy_ret
                        (FloatCol [Fin 100; Fin 0; Fin (-5); Fin 50])
                        (IntCol (toy_signal
                                   (FloatCol [Fin 100; Fin 0; Fin (-5);
                                              Fin 50])))
                        (Fin 1) true))
             (signal_changes
                (toy_signal (FloatCol [Fin 100; Fin 0; Fin (-5); Fin 50])))
             (compute_summary_metrics
                (strategy_ret
                   (FloatCol [Fin 100; Fin 0; Fin (-5); Fin 50])
                   (IntCol (toy_signal
                              (FloatCol [Fin 100; Fin 0; Fin (-5);
                                         Fin 50])))
                   (Fin 1) true))
             roll last))
  /\ (nth_error (compute_returns_from_price
                   (FloatCol [Fin 100; Fin 0; Fin (-5); Fin 50]) true) 1
      = Some NaN
      \/ nth_error (compute_returns_from_price
                      (FloatCol [Fin 100; Fin 0; Fin (-5); Fin 50]) true) 1
         = Some NInf).
Proof.
  destruct (log_returns_raise_nothing log_args nonpositive_frame
              (FloatCol [Fin 100; Fin 0; Fin (-5); Fin 50])
              (FloatCol [Fin 100; Fin 0; Fin (-5); Fin 50])
              eq_refl eq_refl eq_refl eq_refl) as (Hmain & _ & Hrow).
  split; [exact Hmain|].
  apply (Hrow 1%nat 0); [reflexivity | lra].
Defined.

(** The frame [nonpositive_frame] has a price that is not positive, the run
    uses logarithmic returns, and [main] raises no error on it. *)
Lemma nonpositive_price_is_not_an_error :
  get_col "close" nonpositive_frame
    = Some (FloatCol [Fin 100; Fin 0; Fin (-5); Fin 50])
  /\ use_log_returns log_args = true
  /\ compute_returns_from_price
       (FloatCol [Fin 100; Fin 0; Fin (-5); Fin 50]) true
     = [NaN; NInf; NaN; NaN]
  /\ ~ (exists e : exn, main log_args nonpositive_frame = Raise e).
Proof.
  split; [reflexivity|]. split; [reflexivity|].
  split; [unfold compute_returns_from_price, diff, shift1; feval; reflexivity|].
  intros [e He].
  destruct (main_returns log_args nonpositive_frame) as [r Hr];
    try reflexivity.
  - intros name H. discriminate H.
  - rewrite Hr in He. discriminate He.
Qed.

(** ** The worked example *)

Lemma example_returns :
  compute_returns_from_price example_close false
  = [NaN; Fin (1 / 100); Fin (- 2 / 101); Fin 0; Fin (2 / 33)].
Proof.
  unfold compute_returns_from_price, example_close, pct_change, shift1.
  feval. fin_list.
Qed.

Lemma example_signal : toy_signal example_close = [0; 0; 0; 1; 0]%Z.
Proof.
  unfold toy_signal, example_close, pct_change, shift1. feval. reflexivity.
Qed.

Lemma example_pos :
  pos (IntCol [0; 0; 0; 1; 0]%Z) = [Fin 0; Fin 0; Fin 0; Fin 0; Fin 1].
Proof. reflexivity. Qed.

Lemma example_flips :
  flips (IntCol [0; 0; 0; 1; 0]%Z) = [Fin 0; Fin 0; Fin 0; Fin 1; Fin 1].
Proof. unfold flips, diff, shift1, of_Z. feval. fin_list. Qed.

Lemma example_position_flips :
  position_flips (pos (IntCol [0; 0; 0; 1; 0]%Z))
  = [Fin 0; Fin 0; Fin 0; Fin 0; Fin 1].
Proof. unfold position_flips, pos, diff, shift1, of_Z. feval. fin_list. Qed.

Lemma example_strategy_ret (fee_bps : R) :
  strategy_ret example_close (IntCol [0; 0; 0; 1; 0]%Z) (Fin fee_bps) false
  = [Fin 0; Fin 0; Fin 0; Fin (- (fee_bps / 10000));
     Fin (2 / 33 - fee_bps / 10000)].
Proof.
  unfold strategy_ret, cost, ret_col. rewrite example_returns, example_flips.
  rewrite example_pos. feval. fin_list.
Qed.

(** On the worked example with a fee of 10 bps, the code charges the fee on
    rows 3 and 4, where the signal changes, and counts two trades; the
    position changes once, on row 4, so the cost model of the specification
    charges row 4 only and counts one trade. *)
Lemma cost_is_not_on_position_changes :
  let signal := IntCol (toy_signal example_close) in
  cost signal (Fin 10) = [Fin 0; Fin 0; Fin 0; Fin (1 / 1000); Fin (1 / 1000)]
  /\ map (fun f => fmul f (fdiv (Fin 10) (Fin 10000)))
       (position_flips (pos signal))
     = [Fin 0; Fin 0; Fin 0; Fin 0; Fin (1 / 1000)]
  /\ cost signal (Fin 10)
     <> map (fun f => fmul f (fdiv (Fin 10) (Fin 10000)))
          (position_flips (pos signal))
  /\ int_of_float (ssum (flips signal)) = Ok 2%Z
  /\ int_of_float (ssum (position_flips (pos signal))) = Ok 1%Z.
Proof.
  cbv zeta. rewrite example_signal. unfold cost.
  rewrite example_position_flips, example_flips.
  assert (E1 : map (fun f => fmul f (fdiv (Fin 10) (Fin 10000)))
                 [Fin 0; Fin 0; Fin 0; Fin 1; Fin 1]
               = [Fin 0; Fin 0; Fin 0; Fin (1 / 1000); Fin (1 / 1000)])
    by (feval; fin_list).
  assert (E2 : map (fun f => fmul f (fdiv (Fin 10) (Fin 10000)))
                 [Fin 0; Fin 0; Fin 0; Fin 0; Fin 1]
               = [Fin 0; Fin 0; Fin 0; Fin 0; Fin (1 / 1000)])
    by (feval; fin_list).
  rewrite E1, E2. repeat split.
  - intros H. injection H as H. lra.
  - unfold ssum. simpl. f_equal.
    replace (0 + (0 + (0 + (1 + (1 + 0))))) with (IZR 2) by lra.
    apply Rtrunc_IZR.
  - unfold ssum. simpl. f_equal.
    replace (0 + (0 + (0 + (0 + (1 + 0))))) with (IZR 1) by lra.
    apply Rtrunc_IZR.
Qed.

Lemma cost_is_charged_on_signal_changes_witness :
  exists (out : DataFrame) (strategy : Series),
    apply_strategy
      [("close", example_close); ("signal", IntCol [0; 0; 0; 1; 0]%Z)]
      "close" (Fin 10) false
    = Ok (out, 2%Z)
    /\ get_col "strategy_ret" out = Some (FloatCol strategy)
    /\ nth_error strategy 3
       = Some (fsub (fmul (Fin 0) (Fin 0))
                    (fmul (Fin (Rabs (1 - 0))) (fdiv (Fin 10) (Fin 10000)))).
Proof.
  destruct (cost_is_charged_on_signal_changes
              [("close", example_close); ("signal", IntCol [0; 0; 0; 1; 0]%Z)]
              "close" example_close [0; 0; 0; 1; 0]%Z (Fin 10) false
              eq_refl eq_refl)
    as (out & strategy & Hrun & Hcol & _ & Hrow & _).
  exists out, strategy. split; [exact Hrun|]. split; [exact Hcol|].
  apply (Hrow 3%nat (Fin 0)).
  - unfold ret_col. now rewrite example_returns.
  - simpl. lia.
Defined.

Lemma example_cumulative_return :
  cumulative_return
    (compute_summary_metrics [Fin 0; Fin 0; Fin 0; Fin 0; Fin (2 / 33)])
  = Fin (2 / 33).
Proof.
  unfold compute_summary_metrics, equity, iloc_last, cumprod. feval. fin_list.
Qed.

(** The signal of the worked example is not the one the scenario lists: on
    the last row the previous return is [0.0], which is not below zero, so
    the signal is 0 there. *)
Lemma example_signal_is_not_00011 :
  toy_signal example_close <> [0; 0; 0; 1; 1]%Z
  /\ nth_error (compute_returns_from_price example_close false) 3
     = Some (Fin 0)
  /\ nth_error (toy_signal example_close) 4 = Some 0%Z.
Proof.
  rewrite example_signal, example_returns. repeat split. discriminate.
Qed.

(** C2, as the code has it.  For the closing prices 100, 101, 99, 99, 105
    with no fee and simple returns, the returns are undefined, 1/100,
    -2/101, 0 and 2/33 (0.01, -0.0198, 0.0 and 0.0606 to four decimals),
    the signal is 0, 0, 0, 1, 0, the position 0, 0, 0, 0, 1, the strategy
    return 0, 0, 0, 0, 2/33, and [main] reports a cumulative return of 2/33,
    about 6.06 percent. *)
Theorem worked_example :
  compute_returns_from_price example_close false
  = [NaN; Fin (1 / 100); Fin (- 2 / 101); Fin 0; Fin (2 / 33)]
  /\ rounds_to (1 / 100) (100 / 10000)
  /\ rounds_to (- 2 / 101) (- 198 / 10000)
  /\ rounds_to (2 / 33) (606 / 10000)
  /\ toy_signal example_close = [0; 0; 0; 1; 0]%Z
  /\ pos (IntCol (toy_signal example_close))
     = [Fin 0; Fin 0; Fin 0; Fin 0; Fin 1]
  /\ strategy_ret example_close (IntCol (toy_signal example_close))
       (Fin 0) false
     = [Fin 0; Fin 0; Fin 0; Fin 0; Fin (2 / 33)]
  /\ exists r : Report,
       main example_args example_frame = Ok r
       /\ cumulative_return (metrics r) = Fin (2 / 33).
Proof.
  assert (Hround : forall x d : R,
             - (5 / 100000) <= x - d <= 5 / 100000 -> rounds_to x d).
  { intros x d H. unfold rounds_to. apply Rabs_le. lra. }
  assert (Hsr : strategy_ret example_close (IntCol (toy_signal example_close))
                  (Fin 0) false
                = [Fin 0; Fin 0; Fin 0; Fin 0; Fin (2 / 33)]).
  { rewrite example_signal, example_strategy_ret. fin_list. }
  split; [exact example_returns|].
  split; [apply Hround; lra|].
  split; [apply Hround; lra|].
  split; [apply Hround; lra|].
  split; [exact example_signal|].
  split; [rewrite example_signal; exact example_pos|].
  split; [exact Hsr|].
  destruct (main_without_riskfree example_args example_frame
              example_close example_close eq_refl eq_refl eq_refl)
    as (roll & last & Hmain).
  eexists. split; [exact Hmain|].
  simpl metrics. simpl fee_bps. simpl use_log_returns.
  rewrite Hsr. exact example_cumulative_return.
Qed.

(** ** No look-ahead

    Every series operation of the pipeline commutes with taking a prefix:
    row [t] of its result is computed from the rows [0..t] of its input. *)

Lemma firstn_lag (k : nat) (p : float) (xs : Series) :
  firstn k (lag p xs) = lag p (firstn k xs).
Proof.
  revert p xs. induction k as [|k IH]; intros p [|x xs]; simpl; auto.
  now rewrite IH.
Qed.

Lemma firstn_zip_with {A B C : Type} (f : A -> B -> C) (k : nat) xs ys :
  firstn k (zip_with f xs ys) = zip_with f (firstn k xs) (firstn k ys).
Proof.
  revert xs ys. induction k as [|k IH]; intros [|x xs] [|y ys]; simpl; auto.
  now rewrite IH.
Qed.

Lemma firstn_pct_change (k : nat) (xs : Series) :
  firstn k (pct_change xs) = pct_change (firstn k xs).
Proof.
  unfold pct_change, shift1. now rewrite firstn_map, firstn_zip_with, firstn_lag.
Qed.

Lemma firstn_diff (k : nat) (xs : Series) :
  firstn k (diff xs) = diff (firstn k xs).
Proof. unfold diff, shift1. now rewrite firstn_zip_with, firstn_lag. Qed.

Lemma firstn_toy_signal (k : nat) (close : Column) :
  firstn k (toy_signal close)
  = toy_signal (FloatCol (firstn k (astype_float close))).
Proof.
  unfold toy_signal, shift1. simpl.
  now rewrite firstn_map, firstn_lag, firstn_pct_change.
Qed.

Lemma firstn_pos (k : nat) (signal : list Z) :
  firstn k (pos (IntCol signal)) = pos (IntCol (firstn k signal)).
Proof.
  unfold pos, fillna, shift1. simpl.
  now rewrite firstn_map, firstn_lag, firstn_map.
Qed.

Lemma firstn_cost (k : nat) (signal : list Z) (fee_bps : float) :
  firstn k (cost (IntCol signal) fee_bps)
  = cost (IntCol (firstn k signal)) fee_bps.
Proof.
  unfold cost, flips, fillna. simpl.
  now rewrite !firstn_map, firstn_diff, firstn_map.
Qed.

Lemma firstn_ret_col (k : nat) (price : Column) (use_log : bool) :
  firstn k (ret_col price use_log)
  = ret_col (FloatCol (firstn k (astype_float price))) use_log.
Proof.
  unfold ret_col, compute_returns_from_price, fillna. simpl.
  rewrite firstn_map. destruct use_log.
  - now rewrite firstn_diff, firstn_map.
  - now rewrite firstn_pct_change.
Qed.

Lemma firstn_strategy_ret (k : nat) (price : Column) (signal : list Z)
    (fee_bps : float) (use_log : bool) :
  firstn k (strategy_ret price (IntCol signal) fee_bps use_log)
  = strategy_ret (FloatCol (firstn k (astype_float price)))
      (IntCol (firstn k signal)) fee_bps use_log.
Proof.
  unfold strategy_ret.
  now rewrite !firstn_zip_with, firstn_pos, firstn_ret_col, firstn_cost.
Qed.

Lemma agree_upto_firstn {A : Type} (t : nat) (xs ys : list A) :
  agree_upto t xs ys -> firstn (S t) xs = firstn (S t) ys.
Proof.
  revert xs ys. induction t as [|t IH]; intros xs ys H.
  - specialize (H 0%nat (Nat.le_refl 0)).
    destruct xs, ys; simpl in *; congruence.
  - pose proof (H 0%nat (Nat.le_0_l _)) as H0.
    destruct xs as [|x xs], ys as [|y ys]; simpl in H0; try congruence.
    injection H0 as ->. change (y :: firstn (S t) xs = y :: firstn (S t) ys).
    f_equal. apply IH. intros u Hu. apply (H (S u)). lia.
Qed.

Lemma nth_error_firstn_lt {A : Type} (k t : nat) (xs : list A) :
  (t < k)%nat -> nth_error (firstn k xs) t = nth_error xs t.
Proof.
  revert t xs. induction k as [|k IH]; intros t xs Ht; [lia|].
  destruct xs as [|x xs]; [now destruct t|].
  destruct t as [|t]; simpl; [reflexivity|]. apply IH. lia.
Qed.

(** C10.  No look-ahead, as a two-run property: if the close columns of two
    runs agree on the rows [0..t], and so do their execution price columns,
    then with the same fee and return mode the two runs have the same
    signal, the same position and the same strategy return on row [t].
    Prices after row [t] do not influence row [t]. *)
Theorem no_lookahead (close1 close2 price1 price2 : Column)
    (fee_bps : float) (use_log : bool) (t : nat) :
  agree_upto t (astype_float close1) (astype_float close2) ->
  agree_upto t (astype_float price1) (astype_float price2) ->
  nth_error (toy_signal close1) t = nth_error (toy_signal close2) t
  /\ nth_error (pos (IntCol (toy_signal close1))) t
     = nth_error (pos (IntCol (toy_signal close2))) t
  /\ nth_error (strategy_ret price1 (IntCol (toy_signal close1))
                  fee_bps use_log) t
     = nth_error (strategy_ret price2 (IntCol (toy_signal close2))
                    fee_bps use_log) t.
Proof.
  intros Hc Hp.
  apply agree_upto_firstn in Hc. apply agree_upto_firstn in Hp.
  assert (Hs : firstn (S t) (toy_signal close1)
               = firstn (S t) (toy_signal close2))
    by now rewrite !firstn_toy_signal, Hc.
  repeat split.
  - rewrite <- (nth_error_firstn_lt (S t) t (toy_signal close1)) by lia.
    rewrite Hs. apply nth_error_firstn_lt. lia.
  - rewrite <- (nth_error_firstn_lt (S t) t (pos _)) by lia.
    rewrite firstn_pos, Hs, <- firstn_pos. apply nth_error_firstn_lt. lia.
  - rewrite <- (nth_error_firstn_lt (S t) t (strategy_ret price1 _ _ _)) by lia.
    rewrite firstn_strategy_ret, Hs, Hp, <- firstn_strategy_ret.
    apply nth_error_firstn_lt. lia.
Qed.

Lemma no_lookahead_witness :
  nth_error (toy_signal example_close) 2
  = nth_error (toy_signal example_close_changed) 2
  /\ nth_error (pos (IntCol (toy_signal example_close))) 2
     = nth_error (pos (IntCol (toy_signal example_close_changed))) 2
  /\ nth_error (strategy_ret example_close (IntCol (toy_signal example_close))
                  (Fin 1) false) 2
     = nth_error (strategy_ret example_close_changed
                    (IntCol (toy_signal example_close_changed))
                    (Fin 1) false) 2.
Proof.
  apply (no_lookahead example_close example_close_changed
           example_close example_close_changed (Fin 1) false 2).
  - intros u Hu. destruct u as [|[|[|u]]]; [reflexivity .. | lia].
  - intros u Hu. destruct u as [|[|[|u]]]; [reflexivity .. | lia].
Defined.

(** ** Finite series *)

Lemma finite_series (xs : Series) :
  Forall finite xs -> exists rs : list R, xs = map Fin rs.
Proof.
  induction 1 as [|x xs Hx _ [rs ->]].
  - now exists [].
  - destruct x as [| | |r]; try contradiction. now exists (r :: rs).
Qed.

Lemma fillna_Fin (v : float) (rs : list R) :
  fillna v (map Fin rs) = map Fin rs.
Proof. unfold fillna. rewrite map_map. reflexivity. Qed.

Lemma dropna_Fin (rs : list R) : dropna (map Fin rs) = map Fin rs.
Proof. induction rs as [|r rs IH]; simpl; [reflexivity | now rewrite IH]. Qed.

Lemma fmax_Fin (a b : R) : fmax (Fin a) (Fin b) = Fin (Rmax a b).
Proof.
  unfold fmax, flt, Rltb, Rmax.
  destruct (Rlt_dec a b), (Rle_dec a b); try reflexivity; f_equal; lra.
Qed.

Lemma fmin_Fin (a b : R) : fmin (Fin a) (Fin b) = Fin (Rmin a b).
Proof.
  unfold fmin, flt, Rltb, Rmin.
  destruct (Rlt_dec b a), (Rle_dec a b); try reflexivity; f_equal; lra.
Qed.

Lemma fdiv_Fin (a b : R) : b <> 0 -> fdiv (Fin a) (Fin b) = Fin (a / b).
Proof. intros Hb. simpl. now rewrite Reqb_false. Qed.

Lemma smin_Fin (d : R) (ds : list R) :
  smin (map Fin (d :: ds)) = Fin (fold_left Rmin ds d).
Proof.
  unfold smin. rewrite dropna_Fin. cbn [map]. revert d.
  induction ds as [|e ds IH]; intros d; cbn [map fold_left]; [reflexivity|].
  rewrite fmin_Fin. apply IH.
Qed.

(** ** The maximum drawdown *)

Lemma equity_from_Fin (a : R) (rs : list R) :
  cumprod_from (Fin a) (map (fun r => fadd (Fin 1) r) (map Fin rs))
  = map Fin (Requity a rs).
Proof.
  revert a. induction rs as [|r rs IH]; intros a; simpl; [reflexivity|].
  now rewrite IH.
Qed.

Lemma equity_Fin (rs : list R) : equity (map Fin rs) = map Fin (Requity 1 rs).
Proof. apply equity_from_Fin. Qed.

Lemma drawdowns_from_Fin (a p : R) (rs : list R) :
  0 < p ->
  map (fun q => fsub q (Fin 1))
      (zip_with fdiv (map Fin (Requity a rs))
                     (cummax_from (Fin p) (map Fin (Requity a rs))))
  = map Fin (Rdrawdowns a p rs).
Proof.
  revert a p. induction rs as [|r rs IH]; intros a p Hp; [reflexivity|].
  cbn [Requity Rdrawdowns map cummax_from isnan zip_with].
  rewrite fmax_Fin.
  assert (Hp' : 0 < Rmax p (a * (1 + r))).
  { eapply Rlt_le_trans; [exact Hp | apply Rmax_l]. }
  rewrite fdiv_Fin by lra. rewrite IH by exact Hp'. reflexivity.
Qed.

Lemma Rdrawdowns_nonpos (a p : R) (rs : list R) :
  0 < p -> Forall (fun d => d <= 0) (Rdrawdowns a p rs).
Proof.
  revert a p. induction rs as [|r rs IH]; intros a p Hp; simpl; constructor.
  - pose proof (Rmax_l p (a * (1 + r))). pose proof (Rmax_r p (a * (1 + r))).
    assert (a * (1 + r) / Rmax p (a * (1 + r)) <= 1).
    { apply (Rmult_le_reg_r (Rmax p (a * (1 + r)))); [lra|].
      unfold Rdiv. rewrite Rmult_assoc, Rinv_l by lra. lra. }
    lra.
  - apply IH. eapply Rlt_le_trans; [exact Hp | apply Rmax_l].
Qed.

Lemma Rdrawdowns_zero_iff (a : R) (rs : list R) :
  0 < a ->
  Forall (fun d => d = 0) (Rdrawdowns a a rs)
  <-> nondecreasing_from (Fin a) (map Fin (Requity a rs)).
Proof.
  revert a. induction rs as [|r rs IH]; intros a Ha; simpl.
  - split; [trivial | constructor].
  - generalize (a * (1 + r)). intros e.
    destruct (Rle_dec a e) as [Hle|Hgt].
    + rewrite (Rmax_right a e Hle).
      specialize (IH e ltac:(lra)).
      split.
      * intros H. inversion H; subst. split; [exact Hle | now apply IH].
      * intros [_ H]. constructor; [|now apply IH].
        unfold Rdiv. rewrite Rinv_r by lra. lra.
    + rewrite (Rmax_left a e) by lra.
      split.
      * intros H. inversion H as [|d ds Hd _]; subst. exfalso.
        assert (He : e = e / a * a) by (field; lra).
        assert (e / a = 1) by lra. rewrite H0 in He. lra.
      * intros [Hle _]. contradiction.
Qed.

Lemma fold_min_nonpos (ds : list R) (d0 : R) :
  d0 <= 0 -> Forall (fun d => d <= 0) ds ->
  fold_left Rmin ds d0 <= 0
  /\ (fold_left Rmin ds d0 = 0 <-> d0 = 0 /\ Forall (fun d => d = 0) ds).
Proof.
  revert d0. induction ds as [|d ds IH]; intros d0 H0 Hds; simpl.
  - split; [exact H0|]. split; [intros ->; split; [reflexivity | constructor] | tauto].
  - inversion Hds as [|? ? Hd Hds']; subst.
    assert (Hm : Rmin d0 d <= 0) by (unfold Rmin; destruct (Rle_dec d0 d); lra).
    destruct (IH (Rmin d0 d) Hm Hds') as [Hle Hiff]. split; [exact Hle|].
    rewrite Hiff. split.
    + intros [Hmin Hall]. unfold Rmin in Hmin.
      destruct (Rle_dec d0 d); (split; [lra | constructor; [lra | exact Hall]]).
    + intros [-> Hall]. inversion Hall; subst. split; [|assumption].
      unfold Rmin. destruct (Rle_dec 0 0); reflexivity.
Qed.

(** The maximum drawdown of a non-empty sample of finite returns with a
    positive first gross return, as a minimum over the real drawdowns. *)
Lemma max_drawdown_Fin (r0 : R) (rs : list R) :
  0 < 1 + r0 ->
  max_drawdown_from_returns (map Fin (r0 :: rs))
  = Fin (fold_left Rmin (Rdrawdowns (1 * (1 + r0)) (1 * (1 + r0)) rs) 0).
Proof.
  intros Hpos. unfold max_drawdown_from_returns.
  rewrite fillna_Fin, equity_Fin.
  cbn [Requity map]. set (e0 := 1 * (1 + r0)).
  assert (He0 : 0 < e0) by (unfold e0; lra).
  unfold cummax. cbn [cummax_from isnan zip_with map].
  change (fmax NInf (Fin e0)) with (Fin e0).
  rewrite fdiv_Fin by lra. rewrite drawdowns_from_Fin by exact He0.
  change (fsub (Fin (e0 / e0)) (Fin 1) :: map Fin (Rdrawdowns e0 e0 rs))
    with (map Fin ((e0 / e0 - 1) :: Rdrawdowns e0 e0 rs)).
  rewrite smin_Fin.
  assert (Hd0 : e0 / e0 - 1 = 0) by (unfold Rdiv; rewrite Rinv_r by lra; lra).
  now rewrite Hd0.
Qed.

(** C6, as the code has it.  For every non-empty sample of finite excess
    returns whose first gross return [1 + excess[0]] is positive, the
    maximum drawdown is a number [m <= 0], and [m = 0] exactly when the
    equity curve never falls. *)
Theorem max_drawdown_sign (xs : Series) :
  xs <> [] ->
  Forall finite xs ->
  positive (fadd (Fin 1) (hd NaN xs)) ->
  exists m : R,
    max_drawdown_from_returns xs = Fin m
    /\ m <= 0
    /\ (m = 0 <-> nondecreasing (equity xs)).
Proof.
  intros Hne Hfin Hpos.
  destruct (finite_series xs Hfin) as [rs ->].
  destruct rs as [|r0 rs]; [contradiction|]. simpl in Hpos.
  unfold max_drawdown_from_returns. rewrite fillna_Fin, equity_Fin.
  cbn [Requity map]. set (e0 := 1 * (1 + r0)).
  assert (He0 : 0 < e0) by (unfold e0; lra).
  unfold cummax. cbn [cummax_from isnan zip_with map].
  change (fmax NInf (Fin e0)) with (Fin e0).
  rewrite fdiv_Fin by lra. rewrite drawdowns_from_Fin by exact He0.
  change (fsub (Fin (e0 / e0)) (Fin 1) :: map Fin (Rdrawdowns e0 e0 rs))
    with (map Fin ((e0 / e0 - 1) :: Rdrawdowns e0 e0 rs)).
  rewrite smin_Fin.
  assert (Hd0 : e0 / e0 - 1 = 0) by (unfold Rdiv; rewrite Rinv_r by lra; lra).
  rewrite Hd0.
  destruct (fold_min_nonpos (Rdrawdowns e0 e0 rs) 0 (Rle_refl 0)
              (Rdrawdowns_nonpos e0 e0 rs He0)) as [Hle Hiff].
  eexists. split; [reflexivity|]. split; [exact Hle|].
  rewrite Hiff. cbn [map]. rewrite Rdrawdowns_zero_iff by exact He0.
  cbn [nondecreasing]. tauto.
Qed.

Lemma max_drawdown_sign_witness :
  exists m : R,
    max_drawdown_from_returns [Fin 0; Fin (1 / 10); Fin (- 1 / 2)] = Fin m
    /\ m <= 0
    /\ (m = 0 <-> nondecreasing (equity [Fin 0; Fin (1 / 10); Fin (- 1 / 2)])).
Proof.
  apply (max_drawdown_sign [Fin 0; Fin (1 / 10); Fin (- 1 / 2)]).
  - discriminate.
  - repeat constructor.
  - simpl. lra.
Defined.

(** A first return below -100 percent makes the equity negative: for the
    returns -2 and 1 the equity falls from -1 to -2, yet the maximum
    drawdown is 0; and a first return of -100 percent makes it NaN. *)
Lemma max_drawdown_of_negative_equity :
  equity [Fin (-2); Fin 1] = [Fin (-1); Fin (-2)]
  /\ max_drawdown_from_returns [Fin (-2); Fin 1] = Fin 0
  /\ ~ nondecreasing (equity [Fin (-2); Fin 1])
  /\ max_drawdown_from_returns [Fin (-1)] = NaN.
Proof.
  assert (E : equity [Fin (-2); Fin 1] = [Fin (-1); Fin (-2)])
    by (unfold equity, cumprod; feval; fin_list).
  split; [exact E|]. split; [|split].
  - unfold max_drawdown_from_returns.
    change (fillna (Fin 0) [Fin (-2); Fin 1]) with [Fin (-2); Fin 1].
    rewrite E. unfold cummax, smin. feval. fin_list.
  - rewrite E. simpl. lra.
  - unfold max_drawdown_from_returns, equity, cumprod, cummax, smin. feval.
    reflexivity.
Qed.

(** ** Mean and standard deviation *)

Lemma fsum_Fin (rs : list R) : fsum (map Fin rs) = Fin (Rsum rs).
Proof.
  induction rs as [|r rs IH]; [reflexivity|].
  cbn [map]. unfold fsum in *. cbn [fold_right]. rewrite IH. reflexivity.
Qed.

Lemma INR_pos (k : nat) : (0 < k)%nat -> 0 < INR k.
Proof. intros H. apply lt_0_INR. exact H. Qed.

Lemma mean_Fin (rs : list R) :
  rs <> [] -> mean (map Fin rs) = Fin (Rmean rs).
Proof.
  intros Hne. unfold mean. rewrite dropna_Fin, length_map.
  destruct rs as [|r rs]; [contradiction|].
  cbn [length Nat.eqb]. rewrite fsum_Fin. unfold of_nat.
  rewrite fdiv_Fin; [reflexivity|].
  apply Rgt_not_eq, INR_pos. simpl. lia.
Qed.

Lemma Rsum_squares_nonneg (c : R) (rs : list R) :
  0 <= Rsum (map (fun x => (c - x) * (c - x)) rs).
Proof.
  induction rs as [|r rs IH]; simpl; [lra|].
  pose proof (Rle_0_sqr (c - r)) as H. unfold Rsqr in H. lra.
Qed.

Lemma Rvar_nonneg (rs : list R) : (2 <= length rs)%nat -> 0 <= Rvar rs.
Proof.
  intros Hn. unfold Rvar. apply Rmult_le_pos.
  - apply Rsum_squares_nonneg.
  - left. apply Rinv_0_lt_compat, INR_pos. lia.
Qed.

Lemma var_Fin (rs : list R) :
  (2 <= length rs)%nat -> var (map Fin rs) = Fin (Rvar rs).
Proof.
  intros Hn. unfold var. rewrite dropna_Fin, length_map.
  destruct (length rs <=? 1)%nat eqn:E; [apply Nat.leb_le in E; lia|].
  rewrite fsum_Fin. unfold of_nat.
  rewrite fdiv_Fin by (apply Rgt_not_eq, INR_pos; lia).
  rewrite map_map. cbn [fsub fneg fadd fmul].
  replace (map (fun x : R => Fin ((Rsum rs / INR (length rs) + - x)
                                  * (Rsum rs / INR (length rs) + - x))) rs)
    with (map Fin (map (fun x => (Rmean rs - x) * (Rmean rs - x)) rs))
    by (rewrite map_map; reflexivity).
  rewrite fsum_Fin. rewrite fdiv_Fin by (apply Rgt_not_eq, INR_pos; lia).
  reflexivity.
Qed.

Lemma std_Fin (rs : list R) :
  (2 <= length rs)%nat -> std (map Fin rs) = Fin (sqrt (Rvar rs)).
Proof.
  intros Hn. unfold std. rewrite var_Fin by exact Hn. simpl.
  rewrite Rltb_false; [reflexivity|].
  pose proof (Rvar_nonneg rs Hn). lra.
Qed.

Lemma std_short (xs : Series) :
  (length (dropna xs) < 2)%nat -> std xs = NaN.
Proof.
  intros Hn. unfold std, var.
  destruct (length (dropna xs) <=? 1)%nat eqn:E; [reflexivity|].
  apply Nat.leb_gt in E. lia.
Qed.

Lemma dropna_idem (xs : Series) : dropna (dropna xs) = dropna xs.
Proof.
  induction xs as [|x xs IH]; simpl; [reflexivity|].
  destruct (isnan x) eqn:E; simpl; [exact IH|]. now rewrite E, IH.
Qed.

Lemma var_dropna (xs : Series) : var (dropna xs) = var xs.
Proof. unfold var. now rewrite dropna_idem. Qed.

Lemma std_dropna (xs : Series) : std (dropna xs) = std xs.
Proof. unfold std. now rewrite var_dropna. Qed.

Lemma mean_dropna (xs : Series) : mean (dropna xs) = mean xs.
Proof. unfold mean. now rewrite dropna_idem. Qed.

Lemma fadd_nan_r (a : float) : fadd a NaN = NaN.
Proof. destruct a; reflexivity. Qed.

Lemma fsum_In_NaN (l : Series) : In NaN l -> fsum l = NaN.
Proof.
  unfold fsum. induction l as [|x l IH]; simpl; [contradiction|].
  intros [->|H]; [reflexivity|]. rewrite (IH H). apply fadd_nan_r.
Qed.

Lemma fsum_In_PInf (l : Series) :
  In PInf l -> fsum l = PInf \/ fsum l = NaN.
Proof.
  unfold fsum. induction l as [|x l IH]; simpl; [contradiction|].
  intros [->|H].
  - destruct (fold_right fadd (Fin 0) l); simpl; auto.
  - destruct (IH H) as [-> | ->]; destruct x; simpl; auto.
Qed.

Lemma fsum_In_NInf (l : Series) :
  In NInf l -> fsum l = NInf \/ fsum l = NaN.
Proof.
  unfold fsum. induction l as [|x l IH]; simpl; [contradiction|].
  intros [->|H].
  - destruct (fold_right fadd (Fin 0) l); simpl; auto.
  - destruct (IH H) as [-> | ->]; destruct x; simpl; auto.
Qed.

(** An infinite value in the sample makes the variance NaN. *)
Lemma var_nonfinite (xs : Series) (x : float) :
  In x (dropna xs) -> isfinite x = false -> var xs = NaN.
Proof.
  intros Hin Hx. unfold var.
  destruct (length (dropna xs) <=? 1)%nat; [reflexivity|].
  set (ys := dropna xs) in *. set (k := length ys).
  assert (Hk : ~ INR k < 0) by (pose proof (pos_INR k); lra).
  assert (Hnan : isnan x = false).
  { unfold ys, dropna in Hin. apply filter_In in Hin as [_ H].
    now destruct (isnan x). }
  set (avg := fdiv (fsum ys) (of_nat k)).
  assert (Hd : fmul (fsub avg x) (fsub avg x) = NaN).
  { destruct x; try discriminate.
    - destruct (fsum_In_PInf ys Hin) as [E|E]; unfold avg; rewrite E;
        simpl; [rewrite Rltb_false by exact Hk|]; reflexivity.
    - destruct (fsum_In_NInf ys Hin) as [E|E]; unfold avg; rewrite E;
        simpl; [rewrite Rltb_false by exact Hk|]; reflexivity. }
  rewrite (fsum_In_NaN (map _ ys)); [reflexivity|].
  rewrite <- Hd. apply (in_map (fun x => fmul (fsub avg x) (fsub avg x))).
  exact Hin.
Qed.

Lemma forallb_finite (xs : Series) :
  forallb isfinite xs = true -> Forall finite xs.
Proof.
  induction xs as [|x xs IH]; simpl; [constructor|].
  intros H. apply andb_prop in H as [Hx Hxs].
  constructor; [now destruct x | auto].
Qed.

Lemma forallb_not_finite (xs : Series) :
  forallb isfinite xs = false ->
  exists x, In x xs /\ isfinite x = false.
Proof.
  induction xs as [|x xs IH]; simpl; [discriminate|].
  destruct (isfinite x) eqn:E; simpl.
  - intros H. destruct (IH H) as (y & Hy & Hf). exists y. auto.
  - intros _. exists x. auto.
Qed.

(** The sample standard deviation is NaN, or the sample is finite with at
    least two values and it is the square root of their variance. *)
Lemma std_cases (xs : Series) :
  std xs = NaN
  \/ exists rs : list R,
       dropna xs = map Fin rs /\ (2 <= length rs)%nat
       /\ std xs = Fin (sqrt (Rvar rs)).
Proof.
  destruct (forallb isfinite (dropna xs)) eqn:E.
  - destruct (finite_series _ (forallb_finite _ E)) as [rs Hrs].
    destruct (le_lt_dec 2 (length rs)) as [Hn|Hn].
    + right. exists rs. repeat split; auto.
      rewrite <- std_dropna, Hrs. now apply std_Fin.
    + left. apply std_short. rewrite Hrs, length_map. exact Hn.
  - left. destruct (forallb_not_finite _ E) as (x & Hin & Hx).
    unfold std. now rewrite (var_nonfinite xs x Hin Hx).
Qed.

Lemma Rsum_repeat (c : R) (k : nat) : Rsum (repeat c k) = INR k * c.
Proof.
  induction k as [|k IH]; [simpl; lra|].
  cbn [repeat]. unfold Rsum in *. cbn [fold_right]. rewrite IH, S_INR. lra.
Qed.

Lemma Rvar_repeat (c : R) (k : nat) : (2 <= k)%nat -> Rvar (repeat c k) = 0.
Proof.
  intros Hk. unfold Rvar, Rmean. rewrite Rsum_repeat, repeat_length.
  assert (Hc : INR k * c / INR k = c).
  { field. apply Rgt_not_eq, INR_pos. lia. }
  rewrite Hc.
  assert (E : Rsum (map (fun x => (c - x) * (c - x)) (repeat c k)) = 0).
  { clear. induction k as [|k IH]; [reflexivity|].
    cbn [repeat map]. unfold Rsum in *. cbn [fold_right]. rewrite IH. lra. }
  rewrite E. unfold Rdiv. apply Rmult_0_l.
Qed.

(** ** The summary metrics *)

Lemma metrics_n (excess : Series) :
  n (compute_summary_metrics excess) = length (dropna excess).
Proof. reflexivity. Qed.

Lemma metrics_mean (excess : Series) :
  mean_daily_excess (compute_summary_metrics excess) = mean excess.
Proof.
  lazy beta iota zeta delta [compute_summary_metrics mean_daily_excess].
  apply mean_dropna.
Qed.

Lemma metrics_std (excess : Series) :
  std_daily_excess (compute_summary_metrics excess) = std excess.
Proof.
  lazy beta iota zeta delta [compute_summary_metrics std_daily_excess].
  apply std_dropna.
Qed.

Lemma metrics_sharpe (excess : Series) :
  sharpe_annualized (compute_summary_metrics excess)
  = if negb (isnan (std excess))
    then annualized_sharpe (mean excess) (std excess)
    else NaN.
Proof.
  lazy beta iota zeta delta [compute_summary_metrics sharpe_annualized].
  now rewrite std_dropna, mean_dropna.
Qed.

Lemma metrics_max_drawdown (excess : Series) :
  max_drawdown (compute_summary_metrics excess)
  = max_drawdown_from_returns (dropna excess).
Proof. reflexivity. Qed.

(** The Sharpe ratio of a finite sample of at least two values. *)
Lemma sharpe_Fin (rs : list R) :
  (2 <= length rs)%nat ->
  sharpe_annualized (compute_summary_metrics (map Fin rs))
  = if Reqb (sqrt (Rvar rs)) 0 then NaN
    else Fin (Rmean rs / sqrt (Rvar rs) * sqrt TRADING_DAYS).
Proof.
  intros Hn. rewrite metrics_sharpe, std_Fin by exact Hn.
  rewrite mean_Fin by (destruct rs; [simpl in Hn; lia | discriminate]).
  cbn [isnan negb]. unfold annualized_sharpe. cbn [feqb].
  destruct (Reqb (sqrt (Rvar rs)) 0) eqn:E; [reflexivity|].
  cbn [fdiv]. rewrite E. reflexivity.
Qed.






(** ** The rolling Sharpe ratio over the full series *)

Lemma zip_with_app {A B C : Type} (f : A -> B -> C) xs1 xs2 ys1 ys2 :
  length xs1 = length ys1 ->
  zip_with f (xs1 ++ xs2) (ys1 ++ ys2)
  = zip_with f xs1 ys1 ++ zip_with f xs2 ys2.
Proof.
  revert ys1. induction xs1 as [|x xs1 IH]; intros [|y ys1] H;
    simpl in *; try discriminate; [reflexivity|].
  now rewrite IH by congruence.
Qed.

Lemma zip_with_repeat {A B C : Type} (f : A -> B -> C) (a : A) (b : B)
    (k : nat) :
  zip_with f (repeat a k) (repeat b k) = repeat (f a b) k.
Proof. induction k as [|k IH]; simpl; [reflexivity | now rewrite IH]. Qed.

Lemma map_repeat {A B : Type} (f : A -> B) (a : A) (k : nat) :
  map f (repeat a k) = repeat (f a) k.
Proof. induction k as [|k IH]; simpl; [reflexivity | now rewrite IH]. Qed.

Lemma map_const_repeat {A B : Type} (b : B) (l : list A) :
  map (fun _ => b) l = repeat b (length l).
Proof. induction l as [|a l IH]; simpl; [reflexivity | now rewrite IH]. Qed.

(** With the window as long as the series, only the last row has a complete
    window, and that window is the whole series. *)
Lemma rolling_full_window (f : Series -> float) (xs : Series) :
  xs <> [] ->
  rolling (length xs) f xs
  = repeat NaN (length xs - 1)
    ++ [if forallb isfinite xs then f xs else NaN].
Proof.
  intros Hne. unfold rolling.
  assert (Hn : length xs = S (length xs - 1)).
  { destruct xs; [contradiction | simpl; lia]. }
  set (k := (length xs - 1)%nat) in *.
  assert (Hseq : seq 0 (length xs) = seq 0 k ++ [k])
    by (rewrite Hn; now rewrite seq_S).
  rewrite Hseq, map_app. f_equal.
  - transitivity (map (fun _ : nat => NaN) (seq 0 k));
      [|now rewrite map_const_repeat, length_seq].
    apply map_ext_in. intros t Ht. apply in_seq in Ht.
    destruct (length xs <=? t + 1)%nat eqn:E; [|reflexivity].
    apply Nat.leb_le in E. lia.
  - cbn [map].
    replace (length xs <=? k + 1)%nat with true
      by (symmetry; apply Nat.leb_le; lia).
    unfold window_at. replace (k + 1 - length xs)%nat with 0%nat by lia.
    cbn [skipn]. now rewrite firstn_all.
Qed.

Lemma sqrt_trading_days_pos : 0 < sqrt TRADING_DAYS.
Proof. apply sqrt_lt_R0. unfold TRADING_DAYS. lra. Qed.

Lemma fdiv_nan_r (a : float) : fdiv a NaN = NaN.
Proof. destruct a; reflexivity. Qed.

Lemma rolling_sharpe_full_window (xs : Series) :
  xs <> [] ->
  forallb isfinite xs = true ->
  rolling_sharpe_annualized xs (length xs)
  = repeat NaN (length xs - 1)
    ++ [fmul (fdiv (mean xs) (std xs)) (Fin (sqrt TRADING_DAYS))].
Proof.
  intros Hne Hfin. unfold rolling_sharpe_annualized.
  rewrite !rolling_full_window by exact Hne. rewrite Hfin.
  rewrite zip_with_app by reflexivity.
  rewrite zip_with_repeat, map_app, map_repeat. reflexivity.
Qed.

Lemma repeat_Fin (c : R) (k : nat) : repeat (Fin c) k = map Fin (repeat c k).
Proof. induction k as [|k IH]; simpl; [reflexivity | now rewrite IH]. Qed.

Lemma mean_constant (c : R) (k : nat) :
  (1 <= k)%nat -> mean (repeat (Fin c) k) = Fin c.
Proof.
  intros Hk. rewrite repeat_Fin, mean_Fin by (destruct k; [lia | discriminate]).
  unfold Rmean. rewrite Rsum_repeat, repeat_length. f_equal. field.
  apply Rgt_not_eq, INR_pos. lia.
Qed.

Lemma std_constant (c : R) (k : nat) :
  (2 <= k)%nat -> std (repeat (Fin c) k) = Fin 0.
Proof.
  intros Hk. rewrite repeat_Fin, std_Fin by now rewrite repeat_length.
  now rewrite Rvar_repeat, sqrt_0.
Qed.

(** C7 at a constant series.  For five excess returns of 0.5 and a window
    of five rows, the rolling annualized Sharpe series of both scripts ends
    in [+inf] (the mean over a zero standard deviation), while the summary
    metrics and the basic statistics give an undefined (NaN) annualized
    Sharpe ratio for the same series. *)
Theorem rolling_sharpe_of_constant_series :
  rolling_sharpe_annualized (repeat (Fin (1 / 2)) 5) 5
  = [NaN; NaN; NaN; NaN; PInf]
  /\ SharpeDemoPlus.rolling_sharpe (repeat (Fin (1 / 2)) 5) 5
     = [NaN; NaN; NaN; NaN; PInf]
  /\ sharpe_annualized (compute_summary_metrics (repeat (Fin (1 / 2)) 5))
     = NaN
  /\ SharpeDemoPlus.sharpe_annual
       (SharpeDemoPlus.compute_basic_stats (repeat (Fin (1 / 2)) 5))
     = NaN.
Proof.
  assert (Hm : mean (repeat (Fin (1 / 2)) 5) = Fin (1 / 2))
    by (apply mean_constant; lia).
  assert (Hs : std (repeat (Fin (1 / 2)) 5) = Fin 0)
    by (apply std_constant; lia).
  assert (Hroll : rolling_sharpe_annualized (repeat (Fin (1 / 2)) 5) 5
                  = [NaN; NaN; NaN; NaN; PInf]).
  { change 5%nat with (length (repeat (Fin (1 / 2)) 5)) at 2.
    rewrite rolling_sharpe_full_window by (try discriminate; reflexivity).
    rewrite Hm, Hs. cbn [length repeat Nat.sub app]. repeat f_equal.
    cbn [fdiv]. rewrite Reqb_true by reflexivity.
    rewrite Rltb_true by lra. cbn [fmul]. unfold inf_times.
    now rewrite (Rltb_true _ _ sqrt_trading_days_pos). }
  split; [exact Hroll|]. split; [exact Hroll|]. split.
  - rewrite metrics_sharpe, Hs. cbn [isnan negb].
    unfold annualized_sharpe. cbn [feqb]. now rewrite Reqb_true.
  - unfold SharpeDemoPlus.compute_basic_stats.
    change (dropna (repeat (Fin (1 / 2)) 5)) with (repeat (Fin (1 / 2)) 5).
    cbv zeta. cbn [length repeat Nat.ltb Nat.leb].
    change (Fin (1 / 2) :: Fin (1 / 2) :: Fin (1 / 2) :: Fin (1 / 2)
            :: [Fin (1 / 2)]) with (repeat (Fin (1 / 2)) 5).
    rewrite Hs. cbn [feqb]. rewrite Reqb_true by reflexivity.
    reflexivity.
Qed.

(** ** A constant price *)

Lemma lag_repeat (c : float) (k : nat) : lag c (repeat c k) = repeat c k.
Proof. induction k as [|k IH]; simpl; [reflexivity | now rewrite IH]. Qed.

Lemma pct_change_constant (c : R) (k : nat) :
  c <> 0 -> pct_change (repeat (Fin c) (S k)) = NaN :: repeat (Fin 0) k.
Proof.
  intros Hc. unfold pct_change, shift1. cbn [repeat lag zip_with map].
  rewrite lag_repeat, zip_with_repeat, map_repeat, fdiv_Fin by exact Hc.
  f_equal. f_equal. simpl. f_equal. field. exact Hc.
Qed.

Lemma constant_signal (c : R) :
  c <> 0 -> toy_signal (FloatCol (repeat (Fin c) 10)) = repeat 0%Z 10.
Proof.
  intros Hc. unfold toy_signal. cbn [astype_float].
  rewrite pct_change_constant by exact Hc. unfold shift1. feval. reflexivity.
Qed.

Lemma constant_strategy_ret (c fee : R) (use_log : bool) :
  0 < c ->
  strategy_ret (FloatCol (repeat (Fin c) 10)) (IntCol (repeat 0%Z 10))
    (Fin fee) use_log
  = repeat (Fin 0) 10.
Proof.
  intros Hc.
  assert (Hret : ret_col (FloatCol (repeat (Fin c) 10)) use_log
                 = repeat (Fin 0) 10).
  { unfold ret_col, compute_returns_from_price. cbn [astype_float].
    destruct use_log.
    - rewrite map_repeat. cbn [flog]. rewrite Rltb_true by exact Hc.
      unfold diff, shift1. simpl. fin_list.
    - rewrite pct_change_constant by lra. reflexivity. }
  unfold strategy_ret. rewrite Hret.
  unfold cost, flips, pos, diff, shift1, of_Z. feval. fin_list.
Qed.

Lemma zeros_max_drawdown :
  max_drawdown_from_returns (repeat (Fin 0) 10) = Fin 0.
Proof.
  change (repeat (Fin 0) 10) with (map Fin (0 :: repeat 0 9)).
  rewrite max_drawdown_Fin by lra. f_equal.
  destruct (fold_min_nonpos
              (Rdrawdowns (1 * (1 + 0)) (1 * (1 + 0)) (repeat 0 9)) 0
              (Rle_refl 0)) as [_ Hiff].
  { apply Rdrawdowns_nonpos. lra. }
  apply Hiff. split; [reflexivity|].
  apply Rdrawdowns_zero_iff; [lra|]. simpl. repeat split; lra.
Qed.

(** The summary of ten excess returns of zero. *)
Lemma zeros_metrics :
  let m := compute_summary_metrics (repeat (Fin 0) 10) in
  n m = 10%nat
  /\ mean_daily_excess m = Fin 0
  /\ std_daily_excess m = Fin 0
  /\ downside_std_daily m = NaN
  /\ sharpe_annualized m = NaN
  /\ sortino_annualized m = NaN
  /\ max_drawdown m = Fin 0
  /\ hit_rate m = Fin 0.
Proof.
  cbv zeta.
  assert (Hs : std (repeat (Fin 0) 10) = Fin 0) by (apply std_constant; lia).
  split; [reflexivity|].
  split; [rewrite metrics_mean; apply mean_constant; lia|].
  split; [now rewrite metrics_std|].
  assert (Hdown : downside_std_daily
                    (compute_summary_metrics (repeat (Fin 0) 10)) = NaN).
  { lazy beta iota zeta delta [compute_summary_metrics downside_std_daily].
    change (dropna (repeat (Fin 0) 10)) with (repeat (Fin 0) 10).
    assert (E : filter (fun x => flt x (Fin 0)) (repeat (Fin 0) 10) = [])
      by (feval; reflexivity).
    rewrite E. reflexivity. }
  split; [exact Hdown|].
  split.
  { rewrite metrics_sharpe, Hs. cbn [isnan negb]. unfold annualized_sharpe.
    cbn [feqb]. now rewrite Reqb_true. }
  split.
  { lazy beta iota zeta delta [compute_summary_metrics downside_std_daily
                                 sortino_annualized] in Hdown |- *.
    rewrite Hdown. reflexivity. }
  split; [rewrite metrics_max_drawdown; exact zeros_max_drawdown|].
  lazy beta iota zeta delta [compute_summary_metrics hit_rate].
  change (dropna (repeat (Fin 0) 10)) with (repeat (Fin 0) 10).
  unfold fgt, of_nat. feval. fin_list.
Qed.

(** The report of [main] on a constant positive close, with simple or
    logarithmic returns at the close and no risk-free column. *)
Lemma constant_price_excess (c fee : R) (use_log : bool) (w : Z) :
  0 < c ->
  exists (roll : Series) (last : float),
    main (mkArgs (Fin fee) use_log ExecClose w None) (constant_frame c)
    = Ok (mkReport 10 0%Z (compute_summary_metrics (repeat (Fin 0) 10))
            roll last).
Proof.
  intros Hc.
  destruct (main_without_riskfree
              (mkArgs (Fin fee) use_log ExecClose w None) (constant_frame c)
              (FloatCol (repeat (Fin c) 10)) (FloatCol (repeat (Fin c) 10))
              eq_refl eq_refl eq_refl) as (roll & last & Hmain).
  cbn [fee_bps use_log_returns] in Hmain.
  rewrite constant_signal in Hmain by lra.
  rewrite constant_strategy_ret in Hmain by exact Hc.
  exists roll, last. exact Hmain.
Qed.

(** C8, as the code has it.  For a constant positive close over ten rows,
    simple returns and any finite fee, the returns are undefined on row 0
    and 0 afterwards, and [main] reports ten samples with mean 0, a
    standard deviation of 0 (defined), undefined Sharpe and Sortino ratios,
    a maximum drawdown of 0 and a hit rate of 0.0. *)
Theorem constant_price_metrics (c fee : R) (w : Z) :
  0 < c ->
  compute_returns_from_price (FloatCol (repeat (Fin c) 10)) false
  = NaN :: repeat (Fin 0) 9
  /\ exists r : Report,
       main (mkArgs (Fin fee) false ExecClose w None) (constant_frame c)
       = Ok r
       /\ n (metrics r) = 10%nat
       /\ mean_daily_excess (metrics r) = Fin 0
       /\ std_daily_excess (metrics r) = Fin 0
       /\ sharpe_annualized (metrics r) = NaN
       /\ sortino_annualized (metrics r) = NaN
       /\ max_drawdown (metrics r) = Fin 0
       /\ hit_rate (metrics r) = Fin 0.
Proof.
  intros Hc. split.
  - unfold compute_returns_from_price. cbn [astype_float].
    apply (pct_change_constant c 9). lra.
  - destruct (constant_price_excess c fee false w Hc) as (roll & last & Hmain).
    eexists. split; [exact Hmain|]. cbn [metrics].
    destruct zeros_metrics as (Hn & Hmean & Hstd & _ & Hsh & Hso & Hdd & Hhit).
    repeat split; assumption.
Qed.

Lemma constant_price_metrics_witness :
  compute_returns_from_price (FloatCol (repeat (Fin 100) 10)) false
  = NaN :: repeat (Fin 0) 9
  /\ exists r : Report,
       main (mkArgs (Fin 1) false ExecClose 60%Z None) (constant_frame 100)
       = Ok r
       /\ n (metrics r) = 10%nat
       /\ mean_daily_excess (metrics r) = Fin 0
       /\ std_daily_excess (metrics r) = Fin 0
       /\ sharpe_annualized (metrics r) = NaN
       /\ sortino_annualized (metrics r) = NaN
       /\ max_drawdown (metrics r) = Fin 0
       /\ hit_rate (metrics r) = Fin 0.
Proof. apply (constant_price_metrics 100 1 60%Z). lra. Defined.

(** On a constant close of 100 over ten rows the standard deviation that
    [main] reports is [0.0], a defined value, not NaN. *)
Lemma constant_price_std_is_defined :
  exists r : Report,
    main (mkArgs (Fin 1) false ExecClose 60%Z None) (constant_frame 100)
    = Ok r
    /\ n (metrics r) = 10%nat
    /\ std_daily_excess (metrics r) = Fin 0
    /\ std_daily_excess (metrics r) <> NaN.
Proof.
  destruct (constant_price_excess 100 1 false 60%Z ltac:(lra))
    as (roll & last & Hmain).
  eexists. split; [exact Hmain|]. cbn [metrics].
  destruct zeros_metrics as (Hn & _ & Hstd & _).
  split; [exact Hn|]. split; [exact Hstd|]. rewrite Hstd. discriminate.
Qed.

(** ** The first period *)

Lemma Forall_lag (P : float -> Prop) (p : float) (xs : Series) :
  P p -> Forall P xs -> Forall P (lag p xs).
Proof.
  intros Hp H. revert p Hp. induction H as [|x xs Hx _ IH]; intros p Hp;
    simpl; constructor; auto.
Qed.

Lemma Forall_zip_with {A B C : Type} (P : A -> Prop) (Q : B -> Prop)
    (S : C -> Prop) (f : A -> B -> C) xs ys :
  (forall x y, P x -> Q y -> S (f x y)) ->
  Forall P xs -> Forall Q ys -> Forall S (zip_with f xs ys).
Proof.
  intros Hf Hxs. revert ys. induction Hxs as [|x xs Hx _ IH];
    intros ys Hys; simpl; [constructor|].
  destruct Hys as [|y ys Hy Hys]; constructor; auto.
Qed.

Lemma Forall_map_impl {A B : Type} (P : A -> Prop) (Q : B -> Prop) (f : A -> B)
    (xs : list A) :
  (forall x, P x -> Q (f x)) -> Forall P xs -> Forall Q (map f xs).
Proof. intros Hf H. induction H; simpl; constructor; auto. Qed.

Lemma fillna_finite (xs : Series) :
  Forall finite_or_nan xs -> Forall finite (fillna (Fin 0) xs).
Proof.
  apply Forall_map_impl. intros [| | |x] H; simpl; auto.
Qed.

Lemma of_Z_finite (signal : list Z) : Forall finite (map of_Z signal).
Proof. induction signal; simpl; constructor; simpl; auto. Qed.

Lemma finite_is_finite_or_nan (xs : Series) :
  Forall finite xs -> Forall finite_or_nan xs.
Proof. apply Forall_impl. intros [| | |x]; simpl; auto. Qed.

Lemma pos_finite (signal : list Z) : Forall finite (pos (IntCol signal)).
Proof.
  unfold pos, shift1. apply fillna_finite, Forall_lag; [exact I|].
  apply finite_is_finite_or_nan, of_Z_finite.
Qed.

Lemma diff_finite_or_nan (xs : Series) :
  Forall finite xs -> Forall finite_or_nan (diff xs).
Proof.
  intros H. unfold diff, shift1.
  apply (Forall_zip_with finite finite_or_nan finite_or_nan);
    [|exact H|apply Forall_lag; [exact I | now apply finite_is_finite_or_nan]].
  intros [| | |x] [| | |y]; simpl; auto.
Qed.

Lemma flips_finite (signal : list Z) : Forall finite (flips (IntCol signal)).
Proof.
  unfold flips. apply fillna_finite.
  apply (Forall_map_impl finite_or_nan); [intros [| | |x]; simpl; auto|].
  apply diff_finite_or_nan, of_Z_finite.
Qed.

Lemma cost_finite (signal : list Z) (fee : R) :
  Forall finite (cost (IntCol signal) (Fin fee)).
Proof.
  unfold cost. apply (Forall_map_impl finite); [|apply flips_finite].
  intros [| | |x] H; try contradiction.
  simpl. rewrite Reqb_false by lra. exact I.
Qed.

Lemma ret_col_finite (price : Column) (use_log : bool) :
  Forall positive (astype_float price) ->
  Forall finite (ret_col price use_log).
Proof.
  intros Hpos. unfold ret_col, compute_returns_from_price.
  apply fillna_finite. destruct use_log.
  - apply diff_finite_or_nan. apply (Forall_map_impl positive); [|exact Hpos].
    intros [| | |x] Hx; try contradiction. simpl in *.
    now rewrite Rltb_true.
  - unfold pct_change, shift1.
    apply (Forall_map_impl finite_or_nan); [intros [| | |x]; simpl; auto|].
    apply (Forall_zip_with positive
             (fun y => y = NaN \/ positive y) finite_or_nan);
      [|exact Hpos|apply Forall_lag; [now left|]].
    + intros [| | |x] [| | |y] Hx [Hy|Hy]; try contradiction;
        try discriminate; simpl in *; auto.
      rewrite Reqb_false by lra. exact I.
    + revert Hpos. apply Forall_impl. now right.
Qed.

Lemma strategy_ret_finite (price : Column) (signal : list Z) (fee : R)
    (use_log : bool) :
  Forall positive (astype_float price) ->
  Forall finite (strategy_ret price (IntCol signal) (Fin fee) use_log).
Proof.
  intros Hpos. unfold strategy_ret.
  apply (Forall_zip_with finite finite finite);
    [|apply (Forall_zip_with finite finite finite)|apply cost_finite].
  - intros [| | |x] [| | |y] Hx Hy; try contradiction; exact I.
  - intros [| | |x] [| | |y] Hx Hy; try contradiction; exact I.
  - apply pos_finite.
  - now apply ret_col_finite.
Qed.

Lemma length_toy_signal (close : Column) :
  length (toy_signal close) = length (astype_float close).
Proof.
  unfold toy_signal, shift1.
  now rewrite length_map, length_lag, length_pct_change.
Qed.

Lemma length_strategy_ret (price : Column) (signal : list Z)
    (fee_bps : float) (use_log : bool) :
  length signal = length (astype_float price) ->
  length (strategy_ret price (IntCol signal) fee_bps use_log)
  = length (astype_float price).
Proof.
  intros Hlen. unfold strategy_ret, cost, flips, ret_col.
  rewrite !length_zip_with, length_pos, !length_map, !length_fillna.
  rewrite !length_map, length_diff, length_compute_returns.
  cbn [astype_float]. rewrite !length_map. lia.
Qed.

Lemma dropna_of_finite (xs : Series) : Forall finite xs -> dropna xs = xs.
Proof.
  intros H. destruct (finite_series xs H) as [rs ->]. apply dropna_Fin.
Qed.

(** Row 0 of the returns is undefined in either mode. *)
Lemma first_return_undefined (price : Column) (use_log : bool) :
  astype_float price <> [] ->
  hd_error (compute_returns_from_price price use_log) = Some NaN.
Proof.
  intros Hne. unfold compute_returns_from_price.
  destruct (astype_float price) as [|x xs]; [contradiction|].
  destruct use_log; unfold diff, pct_change, shift1; simpl.
  - now rewrite fsub_nan_r.
  - now rewrite fdiv_nan_r.
Qed.

(** Row 0 of the strategy returns is [0.0] when the fee is finite: a flat
    position times a return filled with [0.0], less no flip. *)
Lemma first_strategy_return (price : Column) (signal : list Z) (fee : R)
    (use_log : bool) :
  astype_float price <> [] -> signal <> [] ->
  hd_error (strategy_ret price (IntCol signal) (Fin fee) use_log)
  = Some (Fin 0).
Proof.
  intros Hp Hs.
  pose proof (first_return_undefined price use_log Hp) as Hr.
  unfold strategy_ret, cost, flips, pos, ret_col, diff, shift1.
  destruct (compute_returns_from_price price use_log) as [|r rs];
    [discriminate|]. injection Hr as ->.
  destruct signal as [|s signal]; [contradiction|].
  simpl. rewrite Reqb_false by lra. simpl. f_equal. f_equal. lra.
Qed.

(** The summary is a function of the entries that are not NaN. *)
Lemma summary_of_dropna (xs ys : Series) :
  dropna xs = dropna ys ->
  compute_summary_metrics xs = compute_summary_metrics ys.
Proof. intros H. unfold compute_summary_metrics. now rewrite H. Qed.

Lemma dropna_app_nan (xs ys : Series) :
  dropna (xs ++ NaN :: ys) = dropna (xs ++ ys).
Proof. unfold dropna. now rewrite !filter_app. Qed.

Lemma first_ret_col (price : Column) (use_log : bool) :
  astype_float price <> [] ->
  hd_error (ret_col price use_log) = Some (Fin 0).
Proof.
  intros Hne. pose proof (first_return_undefined price use_log Hne) as H.
  unfold ret_col.
  destruct (compute_returns_from_price price use_log); [discriminate|].
  injection H as ->. reflexivity.
Qed.

(** C4, as the code has it.  For every non-empty price series the return
    of row 0 is undefined, but [apply_strategy] fills it with [0.0], and
    with a finite fee row 0 of the excess returns is the defined value
    [0.0].  The summary drops undefined entries (a NaN anywhere in the
    sample changes nothing) and its [n] counts the defined ones, of which
    row 0 is the first.  For positive prices all rows are defined: [n] is
    the number of rows, and the mean and the standard deviation are those
    of the whole series, the zero of the first period included. *)
Theorem first_period_is_counted (args : Args) (df : DataFrame)
    (close price : Column) (fee : R) :
  get_col "close" df = Some close ->
  get_col (exec_name (exec_price args)) df = Some price ->
  length (astype_float close) = length (astype_float price) ->
  astype_float price <> [] ->
  riskfree_col args = None ->
  fee_bps args = Fin fee ->
  let excess := strategy_ret price (IntCol (toy_signal close)) (Fin fee)
                  (use_log_returns args) in
  hd_error (compute_returns_from_price price (use_log_returns args))
  = Some NaN
  /\ hd_error (ret_col price (use_log_returns args)) = Some (Fin 0)
  /\ hd_error excess = Some (Fin 0)
  /\ (exists r : Report,
        main args df = Ok r
        /\ metrics r = compute_summary_metrics excess
        /\ n (metrics r) = length (dropna excess)
        /\ hd_error (dropna excess) = Some (Fin 0))
  /\ (forall xs ys : Series,
        compute_summary_metrics (xs ++ NaN :: ys)
        = compute_summary_metrics (xs ++ ys))
  /\ (Forall positive (astype_float price) ->
      exists rs : list R,
        excess = map Fin (0 :: rs)
        /\ n (compute_summary_metrics excess) = length (astype_float price)
        /\ mean_daily_excess (compute_summary_metrics excess)
           = Fin (Rmean (0 :: rs))
        /\ ((2 <= length (astype_float price))%nat ->
            std_daily_excess (compute_summary_metrics excess)
            = Fin (sqrt (Rvar (0 :: rs))))).
Proof.
  intros Hc Hp Hlen Hne Hrf Hfee excess.
  assert (Hsig : length (toy_signal close) = length (astype_float price))
    by now rewrite length_toy_signal.
  assert (Hhd : hd_error excess = Some (Fin 0)).
  { apply first_strategy_return; [exact Hne|].
    intros E. rewrite E in Hsig. destruct (astype_float price);
      [contradiction | discriminate]. }
  split; [now apply first_return_undefined|].
  split; [now apply first_ret_col|].
  split; [exact Hhd|].
  split; [|split].
  - destruct (main_without_riskfree args df close price Hc Hp Hrf)
      as (roll & last & Hmain).
    rewrite Hfee in Hmain. fold excess in Hmain.
    eexists. split; [exact Hmain|]. cbn [metrics].
    split; [reflexivity|]. split; [apply metrics_n|].
    destruct excess as [|x xs]; [discriminate|].
    injection Hhd as ->. reflexivity.
  - intros xs ys. apply summary_of_dropna, dropna_app_nan.
  - intros Hpos.
    destruct (finite_series excess
                (strategy_ret_finite price (toy_signal close) fee
                   (use_log_returns args) Hpos)) as [rs' Hrs].
    assert (HL : length excess = length (astype_float price))
      by now apply length_strategy_ret.
    rewrite Hrs in Hhd, HL |- *.
    destruct rs' as [|r0 rs]; [discriminate|].
    injection Hhd as ->. exists rs. split; [reflexivity|].
    rewrite length_map in HL.
    split; [now rewrite metrics_n, dropna_Fin, length_map|].
    split; [rewrite metrics_mean; apply mean_Fin; discriminate|].
    intros H2. rewrite metrics_std. apply std_Fin. lia.
Qed.

Lemma first_period_is_counted_witness :
  hd_error (compute_returns_from_price example_close false) = Some NaN
  /\ hd_error (strategy_ret example_close
                 (IntCol (toy_signal example_close)) (Fin 0) false)
     = Some (Fin 0)
  /\ exists r : Report,
       main example_args example_frame = Ok r
       /\ n (metrics r) = length (astype_float example_close).
Proof.
  destruct (first_period_is_counted example_args example_frame
              example_close example_close 0
              eq_refl eq_refl eq_refl ltac:(discriminate) eq_refl eq_refl)
    as (H0 & _ & Hx & (r & Hmain & Hm & _) & _ & Hpos).
  split; [exact H0|]. split; [exact Hx|].
  exists r. split; [exact Hmain|].
  destruct Hpos as (rs & _ & Hn & _).
  - repeat constructor; simpl; lra.
  - rewrite Hm. exact Hn.
Defined.

(** On the worked example the return of row 0 is undefined and four returns
    are defined, yet the summary counts five samples: the first period is
    in [n]. *)
Lemma first_period_is_not_excluded :
  hd_error (compute_returns_from_price example_close false) = Some NaN
  /\ length (dropna (compute_returns_from_price example_close false)) = 4%nat
  /\ exists r : Report,
       main example_args example_frame = Ok r
       /\ n (metrics r) = 5%nat
       /\ n (metrics r)
          <> length (dropna (compute_returns_from_price example_close false)).
Proof.
  rewrite example_returns. split; [reflexivity|]. split; [reflexivity|].
  destruct (main_without_riskfree example_args example_frame
              example_close example_close eq_refl eq_refl eq_refl)
    as (roll & last & Hmain).
  cbn [fee_bps use_log_returns example_args] in Hmain.
  rewrite example_signal, example_strategy_ret in Hmain.
  eexists. split; [exact Hmain|]. cbn [metrics]. rewrite metrics_n.
  split; [reflexivity | discriminate].
Qed.

(** ** The first scaffold *)

(** The signal of backtest_scaffold.py is the one of the later script. *)
Lemma scaffold_generate_signals (df : DataFrame) :
  BacktestScaffold.generate_signals df = generate_signals df.
Proof. reflexivity. Qed.

(** [apply_strategy] of backtest_scaffold.py computes the strategy returns
    of the later script with simple returns of the close. *)
Lemma scaffold_apply_strategy (df : DataFrame) (close signal : Column)
    (fee_bps : float) :
  get_col "close" df = Some close ->
  get_col "signal" df = Some signal ->
  exists out : DataFrame,
    BacktestScaffold.apply_strategy df fee_bps = Ok out
    /\ get_col "strategy_ret" out
       = Some (FloatCol (strategy_ret close signal fee_bps false)).
Proof.
  intros Hc Hs. unfold BacktestScaffold.apply_strategy.
  rewrite (getitem_some _ _ _ Hc). cbn [bind].
  assert (Hs' : forall c, get_col "signal" (set_col "ret" c df) = Some signal).
  { intros c. rewrite get_col_set_col. exact Hs. }
  rewrite (getitem_some _ _ _ (Hs' _)). cbn [bind].
  eexists. split; [reflexivity|].
  rewrite get_col_set_col. reflexivity.
Qed.

Lemma scaffold_apply_strategy_witness :
  exists out : DataFrame,
    BacktestScaffold.apply_strategy
      [("close", example_close); ("signal", IntCol [0; 0; 0; 1; 0]%Z)]
      (Fin 1)
    = Ok out
    /\ get_col "strategy_ret" out
       = Some (FloatCol (strategy_ret example_close
                           (IntCol [0; 0; 0; 1; 0]%Z) (Fin 1) false)).
Proof.
  apply (scaffold_apply_strategy
           [("close", example_close); ("signal", IntCol [0; 0; 0; 1; 0]%Z)]
           example_close (IntCol [0; 0; 0; 1; 0]%Z) (Fin 1));
    reflexivity.
Defined.

(* ================================================================== *)
(** * Further properties of the scripts *)

(** ** When [main] raises *)




(** ** The shape of the toy signal *)

Lemma pct_change_head (x : float) (xs : Series) :
  exists ys : Series, pct_change (x :: xs) = NaN :: ys.
Proof.
  unfold pct_change, shift1. cbn [lag zip_with map].
  rewrite fdiv_nan_r. eexists. reflexivity.
Qed.

Lemma toy_signal_starts_flat_aux (close : Column) :
  length (toy_signal close) = length (astype_float close)
  /\ Forall (fun s => s = 0%Z \/ s = 1%Z) (toy_signal close)
  /\ firstn 2 (toy_signal close)
     = repeat 0%Z (Nat.min 2 (length (toy_signal close))).
Proof.
  split; [apply length_toy_signal|]. split.
  - unfold toy_signal. apply Forall_forall. intros s Hs.
    apply in_map_iff in Hs as (y & <- & _).
    destruct (flt y (Fin 0)); simpl; auto.
  - unfold toy_signal, shift1. destruct (astype_float close) as [|x xs];
      [reflexivity|].
    destruct (pct_change_head x xs) as [ys Hys]. rewrite Hys.
    destruct ys as [|y ys]; reflexivity.
Qed.

(** The toy signal has one entry per row, each 0 or 1; it is 0 on the first
    two rows, whatever the prices, so the position is flat on the first
    three rows. *)
Theorem toy_signal_starts_flat (close : Column) :
  length (toy_signal close) = length (astype_float close)
  /\ Forall (fun s => s = 0%Z \/ s = 1%Z) (toy_signal close)
  /\ firstn 2 (toy_signal close)
     = repeat 0%Z (Nat.min 2 (length (astype_float close)))
  /\ firstn 3 (pos (IntCol (toy_signal close)))
     = repeat (Fin 0) (Nat.min 3 (length (astype_float close))).
Proof.
  destruct (toy_signal_starts_flat_aux close) as (Hl & Hbin & H2).
  split; [exact Hl|]. split; [exact Hbin|]. split.
  - now rewrite H2, Hl.
  - unfold pos, toy_signal, shift1. cbn [astype_float].
    destruct (astype_float close) as [|x xs]; [reflexivity|].
    destruct (pct_change_head x xs) as [ys Hys]. rewrite Hys.
    assert (Hlen : length ys = length xs).
    { pose proof (length_pct_change (x :: xs)) as H. rewrite Hys in H.
      simpl in H. lia. }
    destruct xs as [|x' [|x'' xs]]; destruct ys as [|y [|y' ys]];
      try discriminate; reflexivity.
Qed.

(** ** Bounds of the trade count *)

Lemma changes_from_bound (prev : Z) (signal : list Z) :
  (prev = 0 \/ prev = 1)%Z ->
  Forall (fun s => s = 0%Z \/ s = 1%Z) signal ->
  (0 <= changes_from prev signal <= Z.of_nat (length signal))%Z.
Proof.
  intros Hp H. revert prev Hp.
  induction H as [|s signal Hs _ IH]; intros prev Hp; [simpl; lia|].
  cbn [changes_from length]. specialize (IH s Hs). lia.
Qed.

Lemma toy_signal_changes_bound (close : Column) :
  (0 <= signal_changes (toy_signal close)
   <= Z.max 0 (Z.of_nat (length (astype_float close)) - 2))%Z.
Proof.
  destruct (toy_signal_starts_flat_aux close) as (Hlen & Hbin & H2).
  rewrite <- Hlen.
  destruct (toy_signal close) as [|s0 [|s1 rest]]; [simpl; lia .. |].
  cbn [firstn length Nat.min repeat] in H2. injection H2 as -> ->.
  inversion Hbin as [|? ? _ Hb1]; subst. inversion Hb1 as [|? ? _ Hb2]; subst.
  cbn [signal_changes changes_from length].
  pose proof (changes_from_bound 0 rest (or_introl eq_refl) Hb2). lia.
Qed.

(** What a report of [main] is made of. *)
Lemma main_report (args : Args) (df : DataFrame) (close : Column)
    (r : Report) :
  get_col "close" df = Some close ->
  main args df = Ok r ->
  exists strategy excess : Series,
    rows r = length strategy
    /\ (length excess <= length strategy)%nat
    /\ trade_count r = signal_changes (toy_signal close)
    /\ metrics r = compute_summary_metrics excess
    /\ roll_sharpe r
       = rolling_sharpe_annualized excess
           (Z.to_nat (Z.max 5 (window args)))
    /\ last_roll r
       = match dropna (roll_sharpe r) with
         | [] => NaN
         | l => iloc_last l
         end.
Proof.
  intros Hc. unfold main. rewrite (has_col_of_get _ _ _ Hc). cbn [negb].
  assert (Hchk : match exec_price args with
                 | ExecOpen => negb (has_col "open" df)
                 | ExecClose => false
                 end = negb (has_col (exec_name (exec_price args)) df)).
  { destruct (exec_price args); cbn [exec_name]; [reflexivity|].
    now rewrite (has_col_of_get _ _ _ Hc). }
  rewrite Hchk. unfold has_col at 1.
  destruct (get_col (exec_name (exec_price args)) df) as [price|] eqn:Hp;
    cbn [negb]; [|discriminate].
  destruct (apply_strategy_after_signals df (exec_price args) close price
              (fee_bps args) (use_log_returns args) Hc Hp)
    as (out & Hrun & _ & _ & Hsr & _).
  rewrite bind_assoc, Hrun. cbn [bind].
  rewrite (getitem_some _ _ _ Hsr). cbn [bind astype_float].
  set (strategy := strategy_ret price (IntCol (toy_signal close))
                     (fee_bps args) (use_log_returns args)).
  destruct (riskfree_col args) as [name|]; cbn [bind].
  - destruct (String.eqb name ""); cbn [bind].
    + intros H. injection H as <-. exists strategy, strategy.
      cbn. repeat split; auto.
    + destruct (String.eqb name "date"); cbn [bind]; [discriminate|].
      destruct (has_col name out); cbn [negb bind]; [|discriminate].
      destruct (getitem out name) as [rf|]; cbn [bind]; [|discriminate].
      intros H. injection H as <-.
      exists strategy, (zip_with fsub strategy (fillna (Fin 0) (astype_float rf))).
      cbn. repeat split; auto.
      rewrite length_zip_with. lia.
  - intros H. injection H as <-. exists strategy, strategy.
    cbn. repeat split; auto.
Qed.

(** Every report of [main] has a trade count between 0 and the number of
    rows of the close column less two (0 for fewer than two rows): the toy
    signal cannot change on the first two rows. *)
Theorem trade_count_bounds (args : Args) (df : DataFrame) (close : Column)
    (r : Report) :
  get_col "close" df = Some close ->
  main args df = Ok r ->
  (0 <= trade_count r
   <= Z.max 0 (Z.of_nat (length (astype_float close)) - 2))%Z.
Proof.
  intros Hc Hmain.
  destruct (main_report args df close r Hc Hmain) as (s & x & _ & _ & -> & _).
  apply toy_signal_changes_bound.
Qed.

Lemma trade_count_bounds_witness :
  exists r : Report,
    main example_args example_frame = Ok r
    /\ (0 <= trade_count r
        <= Z.max 0 (Z.of_nat (length (astype_float example_close)) - 2))%Z.
Proof.
  destruct (main_returns example_args example_frame eq_refl eq_refl)
    as [r Hr].
  - intros name H. discriminate H.
  - exists r. split; [exact Hr|].
    apply (trade_count_bounds example_args example_frame example_close r).
    + reflexivity.
    + exact Hr.
Defined.

(** ** The warm-up of the rolling window *)

Lemma length_rolling (w : nat) (f : Series -> float) (xs : Series) :
  length (rolling w f xs) = length xs.
Proof. unfold rolling. now rewrite length_map, length_seq. Qed.

Lemma rolling_incomplete (w : nat) (f : Series -> float) (xs : Series)
    (t : nat) :
  (t + 1 < w)%nat -> (t < length xs)%nat ->
  nth_error (rolling w f xs) t = Some NaN.
Proof.
  intros Hw Ht. unfold rolling. rewrite nth_error_map.
  rewrite (nth_error_nth' _ 0%nat) by now rewrite length_seq.
  rewrite seq_nth by exact Ht. cbn [option_map Nat.add].
  destruct (w <=? t + 1)%nat eqn:E; [|reflexivity].
  apply Nat.leb_le in E. lia.
Qed.

Lemma rolling_short (w : nat) (f : Series -> float) (xs : Series) :
  (length xs < w)%nat -> rolling w f xs = repeat NaN (length xs).
Proof.
  intros Hw. unfold rolling.
  transitivity (map (fun _ : nat => NaN) (seq 0 (length xs)));
    [|now rewrite map_const_repeat, length_seq].
  apply map_ext_in. intros t Ht. apply in_seq in Ht.
  destruct (w <=? t + 1)%nat eqn:E; [|reflexivity].
  apply Nat.leb_le in E. lia.
Qed.

Lemma rolling_sharpe_short (xs : Series) (w : nat) :
  (length xs < w)%nat ->
  rolling_sharpe_annualized xs w = repeat NaN (length xs).
Proof.
  intros Hw. unfold rolling_sharpe_annualized.
  rewrite !rolling_short by exact Hw.
  now rewrite zip_with_repeat, map_repeat.
Qed.

Lemma dropna_repeat_nan (k : nat) : dropna (repeat NaN k) = [].
Proof. induction k; simpl; auto. Qed.

(** The rolling Sharpe series has one entry per row, and it is undefined on
    every row whose trailing window is incomplete: the first [window - 1]
    rows, and all rows of a series shorter than the window. *)
Theorem rolling_sharpe_warm_up (excess : Series) (window : nat) :
  length (rolling_sharpe_annualized excess window) = length excess
  /\ (forall t : nat, (t + 1 < window)%nat -> (t < length excess)%nat ->
        nth_error (rolling_sharpe_annualized excess window) t = Some NaN)
  /\ ((length excess < window)%nat ->
      dropna (rolling_sharpe_annualized excess window) = []).
Proof.
  split; [|split].
  - unfold rolling_sharpe_annualized.
    rewrite length_map, length_zip_with, !length_rolling. apply Nat.min_id.
  - intros t Hw Ht. unfold rolling_sharpe_annualized.
    rewrite nth_error_map, nth_error_zip_with.
    rewrite !rolling_incomplete by assumption. reflexivity.
  - intros Hw. rewrite rolling_sharpe_short by exact Hw.
    apply dropna_repeat_nan.
Qed.

Lemma main_ok_has_close (args : Args) (df : DataFrame) (r : Report) :
  main args df = Ok r -> exists close, get_col "close" df = Some close.
Proof.
  unfold main, has_col.
  destruct (get_col "close" df) as [close|]; [eauto | discriminate].
Qed.

(** The effective window of [main] is at least five rows: on a frame with
    fewer rows than [max(5, window)] every rolling value is undefined and
    the report says "insufficient data" ([last_roll] is NaN). *)
Theorem main_insufficient_data (args : Args) (df : DataFrame) (r : Report) :
  main args df = Ok r ->
  (Z.of_nat (rows r) < Z.max 5 (window args))%Z ->
  last_roll r = NaN
  /\ roll_sharpe r = repeat NaN (length (roll_sharpe r)).
Proof.
  intros Hmain Hrows.
  destruct (main_ok_has_close args df r Hmain) as [close Hc].
  destruct (main_report args df close r Hc Hmain)
    as (s & x & Hr & Hlen & _ & _ & Hroll & Hlast).
  assert (Hshort : (length x < Z.to_nat (Z.max 5 (window args)))%nat) by lia.
  rewrite Hlast, Hroll, rolling_sharpe_short by exact Hshort.
  rewrite dropna_repeat_nan, repeat_length. split; reflexivity.
Qed.

Lemma main_insufficient_data_witness :
  exists r : Report,
    main example_args example_frame = Ok r
    /\ last_roll r = NaN
    /\ roll_sharpe r = repeat NaN (length (roll_sharpe r)).
Proof.
  destruct (main_without_riskfree example_args example_frame
              example_close example_close eq_refl eq_refl eq_refl)
    as (roll & last & Hmain).
  eexists. split; [exact Hmain|].
  apply (main_insufficient_data example_args example_frame _ Hmain).
  cbn [rows example_args window fee_bps use_log_returns].
  rewrite length_strategy_ret by (now rewrite length_toy_signal).
  simpl. lia.
Defined.

(** ** The cumulative return *)

Lemma last_Requity (a r d : R) (rs : list R) :
  last (Requity a (r :: rs)) d
  = a * Rprod (map (fun x => 1 + x) (r :: rs)).
Proof.
  revert a r. induction rs as [|r' rs IH]; intros a r.
  - simpl. unfold Rprod. simpl. lra.
  - change (Requity a (r :: r' :: rs))
      with (a * (1 + r) :: Requity (a * (1 + r)) (r' :: rs)).
    change (last (a * (1 + r) :: Requity (a * (1 + r)) (r' :: rs)) d)
      with (last (Requity (a * (1 + r)) (r' :: rs)) d).
    rewrite IH. unfold Rprod. cbn [map fold_right]. lra.
Qed.

Lemma iloc_last_Fin (e : R) (es : list R) :
  iloc_last (map Fin (e :: es)) = Fin (last (e :: es) 0).
Proof.
  unfold iloc_last. revert e. induction es as [|e' es IH]; intros e;
    [reflexivity|].
  change (last (map Fin (e :: e' :: es)) NaN)
    with (last (map Fin (e' :: es)) NaN).
  rewrite IH. reflexivity.
Qed.

(** The cumulative return of a non-empty sample of finite excess returns is
    the compounded product of the gross returns, less one. *)
Theorem cumulative_return_is_compounded (rs : list R) :
  rs <> [] ->
  cumulative_return (compute_summary_metrics (map Fin rs))
  = Fin (Rprod (map (fun r => 1 + r) rs) - 1).
Proof.
  intros Hne. destruct rs as [|r rs]; [contradiction|].
  lazy beta iota zeta delta [compute_summary_metrics cumulative_return].
  rewrite dropna_Fin, length_map. cbn [length Nat.eqb].
  rewrite equity_Fin. cbn [Requity]. rewrite iloc_last_Fin.
  change (1 * (1 + r) :: Requity (1 * (1 + r)) rs)
    with (Requity 1 (r :: rs)).
  rewrite last_Requity. simpl. f_equal. lra.
Qed.

Lemma cumulative_return_is_compounded_witness :
  cumulative_return
    (compute_summary_metrics (map Fin [1 / 10; - 1 / 2; 0]))
  = Fin (Rprod (map (fun r => 1 + r) [1 / 10; - 1 / 2; 0]) - 1).
Proof.
  apply (cumulative_return_is_compounded [1 / 10; - 1 / 2; 0]).
  discriminate.
Defined.

(** ** The hit rate *)

Lemma filter_length_le {A : Type} (f : A -> bool) (l : list A) :
  (length (filter f l) <= length l)%nat.
Proof.
  induction l as [|a l IH]; simpl; [lia|]. destruct (f a); simpl; lia.
Qed.

(** The hit rate is undefined for an empty sample; otherwise it is the
    number of samples above zero over the number of samples, a fraction
    between 0 and 1. *)
Theorem hit_rate_is_a_fraction (excess : Series) :
  let m := compute_summary_metrics excess in
  let wins := length (filter (fun x => flt (Fin 0) x) (dropna excess)) in
  (n m = 0%nat -> hit_rate m = NaN)
  /\ (n m <> 0%nat ->
      hit_rate m = Fin (INR wins / INR (n m))
      /\ (wins <= n m)%nat
      /\ 0 <= INR wins / INR (n m) <= 1).
Proof.
  cbv zeta. rewrite metrics_n.
  lazy beta iota zeta delta [compute_summary_metrics hit_rate].
  set (xs := dropna excess). set (k := length (filter _ xs)).
  split.
  - intros ->. reflexivity.
  - intros Hn. destruct (length xs =? 0)%nat eqn:E;
      [apply Nat.eqb_eq in E; contradiction|].
    assert (Hpos : 0 < INR (length xs)) by (apply INR_pos; lia).
    assert (Hk : INR k <= INR (length xs))
      by (apply le_INR, filter_length_le).
    pose proof (pos_INR k) as Hk0.
    unfold of_nat. rewrite fdiv_Fin by lra.
    split; [reflexivity|]. split; [apply filter_length_le|]. split.
    + apply Rmult_le_pos; [exact Hk0 | left; now apply Rinv_0_lt_compat].
    + apply (Rmult_le_reg_r (INR (length xs))); [exact Hpos|].
      unfold Rdiv. rewrite Rmult_assoc, Rinv_l by lra. lra.
Qed.

(** ** Standard deviation and volatility *)

Lemma metrics_vol (excess : Series) :
  vol_annualized (compute_summary_metrics excess)
  = if negb (isnan (std excess)) then annualize_vol (std excess) else NaN.
Proof.
  lazy beta iota zeta delta [compute_summary_metrics vol_annualized].
  now rewrite std_dropna.
Qed.

(** The sample standard deviation and the annualized volatility are both
    undefined, or the standard deviation is a number [s >= 0] and the
    volatility is [s * sqrt(252)], also non-negative. *)
Theorem volatility_is_scaled_deviation (excess : Series) :
  let m := compute_summary_metrics excess in
  (std_daily_excess m = NaN /\ vol_annualized m = NaN)
  \/ exists s : R,
       0 <= s /\ std_daily_excess m = Fin s
       /\ vol_annualized m = Fin (s * sqrt 252)
       /\ 0 <= s * sqrt 252.
Proof.
  cbv zeta. rewrite metrics_std, metrics_vol.
  destruct (std_cases excess) as [H|(rs & _ & _ & H)]; rewrite H.
  - left. split; reflexivity.
  - right. exists (sqrt (Rvar rs)).
    pose proof (sqrt_pos (Rvar rs)) as Hs.
    pose proof sqrt_trading_days_pos as Ht. unfold TRADING_DAYS in Ht.
    split; [exact Hs|]. split; [reflexivity|]. split; [reflexivity|].
    apply Rmult_le_pos; lra.
Qed.

(** ** A lower bound of the maximum drawdown *)

Lemma Rdrawdowns_above_minus_one (a p : R) (rs : list R) :
  0 < a -> 0 < p ->
  Forall (fun r => 0 < 1 + r) rs ->
  Forall (fun d => -1 < d) (Rdrawdowns a p rs).
Proof.
  intros Ha Hp H. revert a p Ha Hp.
  induction H as [|r rs Hr _ IH]; intros a p Ha Hp; simpl; constructor.
  - assert (He : 0 < a * (1 + r)) by now apply Rmult_lt_0_compat.
    assert (Hm : 0 < Rmax p (a * (1 + r))).
    { eapply Rlt_le_trans; [exact Hp | apply Rmax_l]. }
    assert (0 < a * (1 + r) / Rmax p (a * (1 + r))).
    { apply Rmult_lt_0_compat; [exact He | now apply Rinv_0_lt_compat]. }
    lra.
  - apply IH.
    + now apply Rmult_lt_0_compat.
    + eapply Rlt_le_trans; [exact Hp | apply Rmax_l].
Qed.

Lemma fold_min_above (b : R) (ds : list R) (d0 : R) :
  b < d0 -> Forall (fun d => b < d) ds -> b < fold_left Rmin ds d0.
Proof.
  intros H0 H. revert d0 H0. induction H as [|d ds Hd _ IH]; intros d0 H0;
    simpl; [exact H0|].
  apply IH. unfold Rmin. destruct (Rle_dec d0 d); assumption.
Qed.


(** When no period loses 100 percent or more (every gross return is
    positive), the maximum drawdown of a non-empty sample is a number
    between -1 and 0: no more than the whole equity is lost. *)
Theorem max_drawdown_at_least_minus_one (rs : list R) :
  rs <> [] ->
  Forall (fun r => 0 < 1 + r) rs ->
  exists m : R,
    max_drawdown (compute_summary_metrics (map Fin rs)) = Fin m
    /\ -1 <= m <= 0.
Proof.
  intros Hne Hall. destruct rs as [|r0 rs]; [contradiction|].
  inversion Hall as [|? ? Hr0 Hrs]; subst.
  rewrite metrics_max_drawdown, dropna_Fin, max_drawdown_Fin by exact Hr0.
  assert (He0 : 0 < 1 * (1 + r0)) by lra.
  eexists. split; [reflexivity|]. split.
  - left. apply fold_min_above; [lra|].
    now apply Rdrawdowns_above_minus_one.
  - apply fold_min_nonpos; [lra|]. now apply Rdrawdowns_nonpos.
Qed.

Lemma max_drawdown_at_least_minus_one_witness :
  exists m : R,
    max_drawdown
      (compute_summary_metrics (map Fin [1 / 10; - 9 / 10; 1 / 2]))
    = Fin m
    /\ -1 <= m <= 0.
Proof.
  apply (max_drawdown_at_least_minus_one [1 / 10; - 9 / 10; 1 / 2]).
  - discriminate.
  - repeat constructor; lra.
Defined.

(** ** The Sortino ratio *)

(** The Sortino ratio is defined only when at least two samples are below
    zero: with at most one losing period it is NaN. *)
Theorem sortino_needs_two_losses (excess : Series) :
  sortino_annualized (compute_summary_metrics excess) <> NaN ->
  (2 <= length (filter (fun x => flt x (Fin 0)) (dropna excess)))%nat.
Proof.
  lazy beta iota zeta delta [compute_summary_metrics sortino_annualized].
  set (down := filter _ (dropna excess)).
  destruct (1 <? length down)%nat eqn:E.
  - intros _. apply Nat.ltb_lt in E. lia.
  - cbn [isnan negb]. intros H. now contradiction H.
Qed.

Lemma sortino_needs_two_losses_witness :
  (2 <= length (filter (fun x => flt x (Fin 0))
                  (dropna [Fin (-1 / 10); Fin (-3 / 10); Fin (1 / 10)])))%nat.
Proof.
  apply (sortino_needs_two_losses
           [Fin (-1 / 10); Fin (-3 / 10); Fin (1 / 10)]).
  lazy beta iota zeta delta [compute_summary_metrics sortino_annualized].
  assert (Ed : filter (fun x => flt x (Fin 0))
                 (dropna [Fin (-1 / 10); Fin (-3 / 10); Fin (1 / 10)])
               = map Fin [-1 / 10; -3 / 10]) by (feval; reflexivity).
  rewrite Ed, length_map. cbn [length Nat.ltb Nat.leb].
  rewrite std_Fin by (simpl; lia). cbn [isnan negb].
  assert (Hm : mean (dropna [Fin (-1 / 10); Fin (-3 / 10); Fin (1 / 10)])
               = Fin (Rmean [-1 / 10; -3 / 10; 1 / 10])).
  { change (dropna [Fin (-1 / 10); Fin (-3 / 10); Fin (1 / 10)])
      with (map Fin [-1 / 10; -3 / 10; 1 / 10]).
    apply mean_Fin. discriminate. }
  rewrite Hm. unfold annualized_sortino. cbn [feqb].
  assert (Hs : sqrt (Rvar [-1 / 10; -3 / 10]) <> 0).
  { intros H. apply sqrt_eq_0 in H; [|apply Rvar_nonneg; simpl; lia].
    unfold Rvar, Rmean, Rsum in H. simpl in H. lra. }
  rewrite Reqb_false by exact Hs. cbn [fdiv].
  rewrite Reqb_false by exact Hs. discriminate.
Defined.

(** ** The statistics of sharpe_demo_plus.py *)

Lemma fmul_nan_l (a : float) : fmul NaN a = NaN.
Proof. reflexivity. Qed.

Lemma basic_stats_short (excess : Series) :
  (length (dropna excess) < 2)%nat ->
  SharpeDemoPlus.compute_basic_stats excess
  = SharpeDemoPlus.mkStats (length (dropna excess)) NaN NaN NaN NaN NaN.
Proof.
  intros Hn. unfold SharpeDemoPlus.compute_basic_stats.
  destruct (length (dropna excess) <? 2)%nat eqn:E; [reflexivity|].
  apply Nat.ltb_ge in E. lia.
Qed.

Lemma basic_stats_long (excess : Series) :
  (2 <= length (dropna excess))%nat ->
  let k := length (dropna excess) in
  let sharpe_daily :=
    if negb (feqb (std excess) (Fin 0)) then fdiv (mean excess) (std excess)
    else NaN in
  let se := fdiv (std excess) (Fin (sqrt (INR k))) in
  SharpeDemoPlus.compute_basic_stats excess
  = SharpeDemoPlus.mkStats k (mean excess) (std excess) sharpe_daily
      (if negb (isnan sharpe_daily)
       then fmul sharpe_daily (Fin (sqrt TRADING_DAYS)) else NaN)
      (if negb (feqb se (Fin 0)) && negb (isnan se)
       then fdiv (mean excess) se else NaN).
Proof.
  intros Hn. cbv zeta. unfold SharpeDemoPlus.compute_basic_stats.
  destruct (length (dropna excess) <? 2)%nat eqn:E;
    [apply Nat.ltb_lt in E; lia|].
  destruct (1 <? length (dropna excess))%nat eqn:E1;
    [|apply Nat.ltb_ge in E1; lia].
  now rewrite std_dropna, mean_dropna.
Qed.

(** The two scripts agree: for every excess-return series the basic
    statistics of sharpe_demo_plus.py and the summary metrics of the
    backtest script count the same samples and give the same standard
    deviation and the same annualized Sharpe ratio; they give the same mean
    when at least two samples are defined (the basic statistics report no
    mean for fewer). *)
Theorem basic_stats_agree_with_summary (excess : Series) :
  let st := SharpeDemoPlus.compute_basic_stats excess in
  let m := compute_summary_metrics excess in
  SharpeDemoPlus.n st = n m
  /\ SharpeDemoPlus.std_excess st = std_daily_excess m
  /\ SharpeDemoPlus.sharpe_annual st = sharpe_annualized m
  /\ ((2 <= n m)%nat -> SharpeDemoPlus.mean_excess st = mean_daily_excess m)
  /\ ((n m < 2)%nat -> SharpeDemoPlus.mean_excess st = NaN).
Proof.
  cbv zeta. rewrite metrics_n, metrics_std, metrics_sharpe, metrics_mean.
  destruct (le_lt_dec 2 (length (dropna excess))) as [Hn|Hn].
  - rewrite (basic_stats_long excess Hn). cbn.
    repeat split; try reflexivity; [|lia].
    destruct (std excess) as [| | |s]; unfold annualized_sharpe;
      cbn [feqb isnan negb].
    + now rewrite fdiv_nan_r.
    + destruct (fdiv (mean excess) PInf); reflexivity.
    + destruct (fdiv (mean excess) NInf); reflexivity.
    + destruct (Reqb s 0); cbn [negb isnan]; [reflexivity|].
      destruct (fdiv (mean excess) (Fin s)); reflexivity.
  - rewrite (basic_stats_short excess Hn), (std_short excess Hn). cbn.
    repeat split; try reflexivity. lia.
Qed.

(** ** Signals and strategy on a frame *)

Lemma set_col_twice (k : string) (c c' : Column) (df : DataFrame) :
  set_col k c (set_col k c' df) = set_col k c df.
Proof.
  induction df as [|[k0 c0] df IH]; simpl.
  - now rewrite String.eqb_refl.
  - destruct (String.eqb k0 k) eqn:E; simpl.
    + now rewrite String.eqb_refl.
    + now rewrite E, IH.
Qed.

(** [generate_signals] raises [KeyError] exactly when the close column is
    missing; otherwise it changes no column but [signal], and running it
    again on its own result changes nothing. *)
Theorem generate_signals_is_idempotent (df : DataFrame) :
  (has_col "close" df = false -> generate_signals df = Raise KeyError)
  /\ (has_col "close" df = true ->
      exists out : DataFrame,
        generate_signals df = Ok out
        /\ generate_signals out = Ok out
        /\ forall name, name <> "signal" -> get_col name out = get_col name df).
Proof.
  unfold generate_signals, getitem, has_col.
  destruct (get_col "close" df) as [close|] eqn:Hc; split;
    try discriminate; try reflexivity.
  intros _. cbn [bind]. eexists. split; [reflexivity|].
  rewrite get_col_set_col. cbn [String.eqb Ascii.eqb Bool.eqb]. rewrite Hc.
  cbn [bind]. split; [now rewrite set_col_twice|].
  intros name Hname. rewrite get_col_set_col.
  destruct (String.eqb "signal" name) eqn:E; [|reflexivity].
  apply String.eqb_eq in E. now contradiction Hname.
Qed.

(** [apply_strategy] raises [KeyError] exactly when the price column or the
    signal column is missing, and with both present and an int64 signal it
    returns the frame and the trade count. *)
Theorem apply_strategy_key_error (df : DataFrame) (price_col : string)
    (fee_bps : float) (use_log : bool) :
  (apply_strategy df price_col fee_bps use_log = Raise KeyError
   <-> has_col price_col df = false \/ has_col "signal" df = false)
  /\ (forall signal : list Z,
        has_col price_col df = true ->
        get_col "signal" df = Some (IntCol signal) ->
        exists out : DataFrame,
          apply_strategy df price_col fee_bps use_log
          = Ok (out, signal_changes signal)).
Proof.
  assert (Hsig : forall c, get_col "signal" (set_col "ret" c df)
                           = get_col "signal" df).
  { intros c. now rewrite get_col_set_col. }
  split.
  - unfold apply_strategy, getitem, has_col.
    destruct (get_col price_col df) as [price|]; cbn [bind];
      [|split; auto].
    rewrite Hsig.
    destruct (get_col "signal" df) as [signal|]; cbn [bind];
      [|split; auto].
    split; [|intros [H|H]; discriminate].
    destruct (ssum (flips signal)); cbn [int_of_float bind]; discriminate.
  - intros signal Hp Hs. unfold apply_strategy, getitem.
    unfold has_col in Hp.
    destruct (get_col price_col df) as [price|]; [|discriminate].
    cbn [bind]. rewrite Hsig, Hs. cbn [bind].
    rewrite trade_count_value. cbn [int_of_float bind]. rewrite Rtrunc_IZR.
    eexists. reflexivity.
Qed.

(** ** [main] of sharpe_demo_plus.py and of sharpe_demo.py *)

Lemma firstn_all_nan (k : nat) (l : Series) :
  (k <= length l)%nat ->
  (forall t, (t < k)%nat -> nth_error l t = Some NaN) ->
  firstn k l = repeat NaN k.
Proof.
  revert l. induction k as [|k IH]; intros l Hk H; [reflexivity|].
  destruct l as [|x l]; [simpl in Hk; lia|].
  pose proof (H 0%nat ltac:(lia)) as H0. simpl in H0. injection H0 as ->.
  cbn [firstn repeat]. f_equal. apply IH; [simpl in Hk; lia|].
  intros t Ht. apply (H (S t)). lia.
Qed.

Lemma rolling_sharpe_incomplete (xs : Series) (w t : nat) :
  (t + 1 < w)%nat -> (t < length xs)%nat ->
  nth_error (rolling_sharpe_annualized xs w) t = Some NaN.
Proof.
  intros Hw Ht. unfold rolling_sharpe_annualized.
  rewrite nth_error_map, nth_error_zip_with.
  now rewrite !rolling_incomplete by assumption.
Qed.

Lemma length_rolling_sharpe (xs : Series) (w : nat) :
  length (rolling_sharpe_annualized xs w) = length xs.
Proof.
  unfold rolling_sharpe_annualized.
  rewrite length_map, length_zip_with, !length_rolling. apply Nat.min_id.
Qed.

(** The defined points of a rolling Sharpe series are at most the rows with
    a complete window. *)
Lemma rolling_sharpe_available (xs : Series) (w : nat) :
  (length (dropna (rolling_sharpe_annualized xs w))
   + Nat.min (w - 1) (length xs) <= length xs)%nat.
Proof.
  set (l := rolling_sharpe_annualized xs w).
  set (k := Nat.min (w - 1) (length xs)).
  assert (Hl : length l = length xs) by apply length_rolling_sharpe.
  assert (Hf : firstn k l = repeat NaN k).
  { apply firstn_all_nan; [unfold k; lia|].
    intros t Ht. apply rolling_sharpe_incomplete; unfold k in Ht; lia. }
  rewrite <- (firstn_skipn k l). unfold dropna. rewrite filter_app.
  fold (dropna (firstn k l)). rewrite Hf, dropna_repeat_nan. cbn [app].
  pose proof (filter_length_le (fun x => negb (isnan x)) (skipn k l)) as H.
  rewrite length_skipn in H. lia.
Qed.

(** [main] of sharpe_demo_plus.py raises [ValueError] when one of its two
    columns is missing and runs otherwise.  Its window is at least five
    rows; the number of available rolling points is at most the number of
    rows with a complete window, and it is 0 when there are fewer rows
    than the window. *)
Theorem sharpe_demo_plus_main (window : Z) (df : DataFrame) :
  (has_col "strategy_return" df && has_col "risk_free_daily" df = false ->
   SharpeDemoPlus.main window df = Raise ValueError)
  /\ (forall sr rf : Column,
        get_col "strategy_return" df = Some sr ->
        get_col "risk_free_daily" df = Some rf ->
        let excess := zip_with fsub (astype_float sr) (astype_float rf) in
        let w := Z.to_nat (Z.max 5 window) in
        exists out : SharpeDemoPlus.Output,
          SharpeDemoPlus.main window df = Ok out
          /\ SharpeDemoPlus.stats out
             = SharpeDemoPlus.compute_basic_stats excess
          /\ (5 <= w)%nat
          /\ (SharpeDemoPlus.available out + Nat.min (w - 1) (length excess)
              <= length excess)%nat
          /\ ((length excess < w)%nat -> SharpeDemoPlus.available out = 0%nat)).
Proof.
  split.
  - unfold SharpeDemoPlus.main, SharpeDemoPlus.load_csv.
    intros ->. reflexivity.
  - intros sr rf Hsr Hrf excess w.
    unfold SharpeDemoPlus.main, SharpeDemoPlus.load_csv.
    rewrite (has_col_of_get _ _ _ Hsr), (has_col_of_get _ _ _ Hrf).
    cbn [andb negb bind].
    rewrite (getitem_some _ _ _ Hsr), (getitem_some _ _ _ Hrf).
    cbn [bind]. fold excess. fold w.
    change (SharpeDemoPlus.rolling_sharpe excess w)
      with (rolling_sharpe_annualized excess w).
    eexists. split; [reflexivity|].
    cbn [SharpeDemoPlus.stats SharpeDemoPlus.available].
    split; [reflexivity|]. split; [unfold w; lia|].
    pose proof (rolling_sharpe_available excess w) as Hav.
    split; [exact Hav|]. lia.
Qed.

(** [main] of sharpe_demo.py raises [ValueError] when one of its two
    columns is missing and runs otherwise.  It reports the sample standard
    deviation of the excess returns; its daily Sharpe ratio is undefined
    when that deviation is undefined or exactly zero, and the mean over the
    deviation otherwise; its annualized ratio is the daily one times
    [sqrt(252)]. *)
Theorem sharpe_demo_main (df : DataFrame) :
  (has_col "strategy_return" df && has_col "risk_free_daily" df = false ->
   SharpeDemo.main df = Raise ValueError)
  /\ (forall sr rf : Column,
        get_col "strategy_return" df = Some sr ->
        get_col "risk_free_daily" df = Some rf ->
        let excess := zip_with fsub (astype_float sr) (astype_float rf) in
        exists o : SharpeDemo.Output,
          SharpeDemo.main df = Ok o
          /\ SharpeDemo.mean_excess o = mean excess
          /\ SharpeDemo.std_excess o = std excess
          /\ (std excess = NaN \/ std excess = Fin 0 ->
              SharpeDemo.sharpe_daily o = NaN
              /\ SharpeDemo.sharpe_annual o = NaN)
          /\ (std excess <> NaN -> std excess <> Fin 0 ->
              SharpeDemo.sharpe_daily o = fdiv (mean excess) (std excess))
          /\ SharpeDemo.sharpe_annual o
             = fmul (SharpeDemo.sharpe_daily o) (Fin (sqrt 252))).
Proof.
  split.
  - unfold SharpeDemo.main. intros ->. reflexivity.
  - intros sr rf Hsr Hrf excess. unfold SharpeDemo.main.
    rewrite (has_col_of_get _ _ _ Hsr), (has_col_of_get _ _ _ Hrf).
    cbn [andb negb].
    rewrite (getitem_some _ _ _ Hsr). cbn [bind].
    rewrite (getitem_some _ _ _ Hrf). cbn [bind]. fold excess.
    eexists. split; [reflexivity|].
    cbn [SharpeDemo.mean_excess SharpeDemo.std_excess SharpeDemo.sharpe_daily
         SharpeDemo.sharpe_annual].
    split; [reflexivity|]. split; [reflexivity|].
    destruct (std excess) as [| | |s] eqn:Es; cbn [feqb negb].
    + rewrite fdiv_nan_r. cbn [isnan negb]. repeat split; reflexivity.
    + repeat split; try reflexivity;
        try (match goal with H : _ \/ _ |- _ =>
               destruct H as [H|H]; discriminate H end).
      destruct (fdiv (mean excess) PInf); reflexivity.
    + repeat split; try reflexivity;
        try (match goal with H : _ \/ _ |- _ =>
               destruct H as [H|H]; discriminate H end).
      destruct (fdiv (mean excess) NInf); reflexivity.
    + destruct (Reqb s 0) eqn:E; cbn [negb isnan].
      * assert (s = 0).
        { unfold Reqb in E.
          destruct (Req_dec_T s 0); [assumption|discriminate]. }
        subst s. repeat split; try reflexivity.
        intros _ H0. now contradiction H0.
      * assert (Hs : s <> 0).
        { intros ->. now rewrite Reqb_true in E. }
        repeat split; try reflexivity;
          try (match goal with H : _ \/ _ |- _ =>
                 destruct H as [H|H]; [discriminate H|];
                 injection H as H; contradiction end).
        destruct (fdiv (mean excess) (Fin s)); reflexivity.
Qed.

(** ** The two revisions of backtest_scaffold_plus.py *)

Lemma filter_all {A : Type} (f : A -> bool) (l : list A) :
  length (filter f l) = length l -> filter f l = l.
Proof.
  induction l as [|a l IH]; simpl; [reflexivity|].
  destruct (f a); simpl; intros H.
  - f_equal. apply IH. lia.
  - pose proof (filter_length_le f l). lia.
Qed.

Lemma metrics_cumulative_return (excess : Series) :
  cumulative_return (compute_summary_metrics excess)
  = if (length (dropna excess) =? 0)%nat then NaN
    else fsub (iloc_last (equity (dropna excess))) (Fin 1).
Proof. reflexivity. Qed.

(** The first revision of the script and the later one (run without a
    risk-free column) fail on the same frames with the same error, and
    otherwise report the same rows, trade count and rolling Sharpe series;
    whenever no strategy return is NaN they also report the same mean,
    standard deviation, volatility, Sharpe ratio, maximum drawdown and
    cumulative return (the later revision drops NaN rows before it
    computes them, the first keeps them). *)
Theorem first_revision_agrees (a : BacktestScaffoldPlusFirst.Args)
    (df : DataFrame) :
  match
    BacktestScaffoldPlusFirst.main a df,
    main (mkArgs (BacktestScaffoldPlusFirst.fee_bps a)
            (BacktestScaffoldPlusFirst.use_log_returns a)
            (BacktestScaffoldPlusFirst.exec_price a)
            (BacktestScaffoldPlusFirst.window a) None) df
  with
  | Ok r1, Ok r =>
      BacktestScaffoldPlusFirst.rows r1 = rows r
      /\ BacktestScaffoldPlusFirst.trade_count r1 = trade_count r
      /\ BacktestScaffoldPlusFirst.roll_sharpe r1 = roll_sharpe r
      /\ BacktestScaffoldPlusFirst.last_roll r1 = last_roll r
      /\ (n (metrics r) = rows r ->
          BacktestScaffoldPlusFirst.mean_d r1 = mean_daily_excess (metrics r)
          /\ BacktestScaffoldPlusFirst.std_d r1 = std_daily_excess (metrics r)
          /\ BacktestScaffoldPlusFirst.vol_ann r1 = vol_annualized (metrics r)
          /\ BacktestScaffoldPlusFirst.sharpe_ann r1
             = sharpe_annualized (metrics r)
          /\ BacktestScaffoldPlusFirst.mdd r1 = max_drawdown (metrics r)
          /\ BacktestScaffoldPlusFirst.cum_ret r1
             = cumulative_return (metrics r))
  | Raise e1, Raise e => e1 = e
  | _, _ => False
  end.
Proof.
  unfold BacktestScaffoldPlusFirst.main, main.
  cbn [fee_bps use_log_returns exec_price window riskfree_col].
  destruct (has_col "close" df) eqn:Hc; cbn [negb]; [|reflexivity].
  set (e := BacktestScaffoldPlusFirst.exec_price a).
  assert (Hchk : match e with
                 | ExecOpen => negb (has_col "open" df)
                 | ExecClose => false
                 end = negb (has_col (exec_name e) df)).
  { destruct e; cbn [exec_name]; [reflexivity | now rewrite Hc]. }
  rewrite Hchk.
  destruct (has_col (exec_name e) df) eqn:Hp; cbn [negb]; [|reflexivity].
  unfold has_col in Hc, Hp.
  destruct (get_col "close" df) as [close|] eqn:Ec; [|discriminate].
  destruct (get_col (exec_name e) df) as [price|] eqn:Ep; [|discriminate].
  destruct (apply_strategy_after_signals df e close price
              (BacktestScaffoldPlusFirst.fee_bps a)
              (BacktestScaffoldPlusFirst.use_log_returns a) Ec Ep)
    as (out & Hrun & _ & _ & Hsr & _).
  rewrite !bind_assoc, Hrun. cbn [bind].
  rewrite (getitem_some _ _ _ Hsr). cbn [bind astype_float].
  set (excess := strategy_ret price (IntCol (toy_signal close))
                   (BacktestScaffoldPlusFirst.fee_bps a)
                   (BacktestScaffoldPlusFirst.use_log_returns a)).
  cbn [BacktestScaffoldPlusFirst.rows BacktestScaffoldPlusFirst.trade_count
       BacktestScaffoldPlusFirst.mean_d BacktestScaffoldPlusFirst.std_d
       BacktestScaffoldPlusFirst.vol_ann BacktestScaffoldPlusFirst.sharpe_ann
       BacktestScaffoldPlusFirst.roll_sharpe
       BacktestScaffoldPlusFirst.last_roll BacktestScaffoldPlusFirst.mdd
       BacktestScaffoldPlusFirst.cum_ret
       rows trade_count metrics roll_sharpe last_roll].
  rewrite metrics_mean, metrics_std, metrics_vol, metrics_sharpe,
    metrics_n, metrics_max_drawdown, metrics_cumulative_return.
  do 4 (split; [reflexivity|]). intros H.
  apply filter_all in H. fold (dropna excess) in H.
  repeat split.
  - destruct (std excess); reflexivity.
  - destruct (std excess) as [| | |s]; cbn [isnan negb]; try reflexivity.
    unfold annualized_sharpe. cbn [feqb]. now rewrite fdiv_nan_r.
  - now rewrite H.
  - rewrite H. destruct excess; reflexivity.
Qed.
